(** * Stage position model (src/model_position.c)

    A shallow embedding of the position model of the Stage robot simulator:
    [position_init], [position_load], [position_update], [position_startup]
    and [position_shutdown].

    The C [double]s are idealised as real numbers ([R]); the model's
    properties (the string-keyed property store of [stg_model_t]) are the
    fields of a record; the messages printed and the property-store
    notifications raised are collected in a trace. *)

From Stdlib Require Import Reals Lra List String ZArith Lia.
Import ListNotations.

Open Scope R_scope.

(** ** Mathematical functions of the C library *)

(** [fabs] *)
Definition fabs (x : R) : R := Rabs x.

(** [hypot(a, b)]: the length of the hypotenuse. *)
Definition hypot (u v : R) : R := sqrt (u * u + v * v).

(** [atan2(y, x)] on the reals: the angle of the point [(x, y)], taken in
    [(-PI, PI]]; by convention [0] at the origin. *)
Definition atan2 (y x : R) : R :=
  if Rlt_dec 0 x then atan (y / x)
  else if Rlt_dec x 0 then
         if Rle_dec 0 y then atan (y / x) + PI else atan (y / x) - PI
       else if Rlt_dec 0 y then PI / 2
            else if Rlt_dec y 0 then - (PI / 2)
                 else 0.

(** [M_PI] *)
Definition M_PI : R := PI.

(** ** Macros of stage.h *)

(** Modelled from the spec: the macros [MIN] and [MAX] live in stage.h,
    which is not part of the sources at hand; the spec writes them [min]
    and [max], the smaller and the larger of two numbers. *)
Definition MIN (u v : R) : R := if Rlt_dec u v then u else v.
Definition MAX (u v : R) : R := if Rlt_dec v u then u else v.

(** Modelled from the spec: the macro [NORMALIZE] lives in stage.h, which is
    not part of the sources at hand.  The spec says that [normalize] brings
    an angle into the interval [(-PI, PI]]: it is the angle, in that
    interval, of the direction [z] points to. *)
Definition NORMALIZE (z : R) : R := atan2 (sin z) (cos z).

(** ** Data types of stage.h *)

(** Modelled from the spec: the types of stage.h, which is not part of the
    sources at hand, with the fields that the code reads and writes.
    [stg_pose_t] is a position and a heading in the plane;
    [stg_velocity_t] is a synonym of it. *)
Record stg_pose_t : Type := mk_pose {
  pose_x : R;
  pose_y : R;
  pose_a : R
}.

Definition stg_velocity_t : Type := stg_pose_t.

(** [memset( &p, 0, sizeof(p) )] on a pose or a velocity. *)
Definition pose_zero : stg_pose_t := mk_pose 0 0 0.

(** Modelled from the spec: the enumerations of stage.h, with the members
    that the code names.  Each C [enum] is an [int]: the last constructor
    of each type stands for any value outside the enumeration, which the
    [default:] branches of the code handle. *)
Inductive stg_position_control_mode_t : Type :=
| STG_POSITION_CONTROL_VELOCITY
| STG_POSITION_CONTROL_POSITION
| STG_POSITION_CONTROL_other.

Inductive stg_position_drive_mode_t : Type :=
| STG_POSITION_DRIVE_DIFFERENTIAL
| STG_POSITION_DRIVE_OMNI
| STG_POSITION_DRIVE_other.

Inductive stg_position_localization_mode_t : Type :=
| STG_POSITION_LOCALIZATION_GPS
| STG_POSITION_LOCALIZATION_ODOM
| STG_POSITION_LOCALIZATION_other.

(** Modelled from the spec: the defaults named by stage.h, which the spec
    gives as velocity control, differential drive and ground truth (gps). *)
Definition STG_POSITION_CONTROL_DEFAULT := STG_POSITION_CONTROL_VELOCITY.
Definition STG_POSITION_DRIVE_DEFAULT := STG_POSITION_DRIVE_DIFFERENTIAL.
Definition STG_POSITION_LOCALIZATION_DEFAULT := STG_POSITION_LOCALIZATION_GPS.

(** Modelled from the spec: [stg_position_cmd_t] of stage.h, a control
    mode and a target, which is a velocity or a pose by the mode. *)
Record stg_position_cmd_t : Type := mk_cmd {
  cmd_x : R;
  cmd_y : R;
  cmd_a : R;
  cmd_mode : stg_position_control_mode_t
}.

(** [memset( &cmd, 0, sizeof(cmd) )]: the command of zero, in the control
    mode whose enumerator is [0], velocity control. *)
Definition cmd_zero : stg_position_cmd_t :=
  mk_cmd 0 0 0 STG_POSITION_CONTROL_VELOCITY.

(** Modelled from the spec: [stg_position_data_t] of stage.h, the believed
    pose, its error, the origin of the localization, the localization mode
    and the integration error. *)
Record stg_position_data_t : Type := mk_data {
  pose : stg_pose_t;
  pose_error : stg_pose_t;
  origin : stg_pose_t;
  localization : stg_position_localization_mode_t;
  integration_error : stg_pose_t
}.

(** The constants of the odometry error model. *)
Definition STG_POSITION_INTEGRATION_ERROR_MAX_X : R := 0.03.
Definition STG_POSITION_INTEGRATION_ERROR_MAX_Y : R := 0.03.
Definition STG_POSITION_INTEGRATION_ERROR_MAX_A : R := 0.05.

(** ** The model and its property store *)

(** What the code does that others can observe besides the values stored:
    the calls of [stg_model_set_property] and [stg_model_property_refresh]
    on a named property, and the messages of [PRINT_ERR] and [PRINT_WARN]
    (the arguments of a message are left out, but for the string that a
    worldfile entry held). *)
Inductive event : Type :=
| EvSet (prop : string)
| EvRefresh (prop : string)
| EvErr (msg : string)
| EvWarn (msg : string).

(** Modelled from the spec: [stg_model_t] of stage.h and its property
    store, as far as the position model uses them: the subscription
    count [subs], the step of the world [sim_interval] (milliseconds), the
    true global pose (what [stg_model_get_global_pose] returns) and the
    properties "velocity", "blob_return", "position_drive",
    "position_stall", "position_cmd" and "position_data".  [position_init]
    installs every property and nothing removes one, so that they are
    fields here. *)
Record stg_model_t : Type := mk_model {
  subs : Z;
  sim_interval : Z;
  gpose : stg_pose_t;
  velocity : stg_velocity_t;
  blob_return : Z;
  position_drive : stg_position_drive_mode_t;
  position_stall : Z;
  position_cmd : stg_position_cmd_t;
  position_data : stg_position_data_t;
  trace : list event
}.

(** *** Field updates *)

Definition set_velocity (v : stg_velocity_t) (m : stg_model_t) : stg_model_t :=
  mk_model (subs m) (sim_interval m) (gpose m) v (blob_return m)
           (position_drive m) (position_stall m) (position_cmd m)
           (position_data m) (trace m).

Definition set_gpose (g : stg_pose_t) (m : stg_model_t) : stg_model_t :=
  mk_model (subs m) (sim_interval m) g (velocity m) (blob_return m)
           (position_drive m) (position_stall m) (position_cmd m)
           (position_data m) (trace m).

Definition set_blob_return (b : Z) (m : stg_model_t) : stg_model_t :=
  mk_model (subs m) (sim_interval m) (gpose m) (velocity m) b
           (position_drive m) (position_stall m) (position_cmd m)
           (position_data m) (trace m).

Definition set_position_drive (d : stg_position_drive_mode_t) (m : stg_model_t)
  : stg_model_t :=
  mk_model (subs m) (sim_interval m) (gpose m) (velocity m) (blob_return m)
           d (position_stall m) (position_cmd m) (position_data m) (trace m).

Definition set_position_stall (s : Z) (m : stg_model_t) : stg_model_t :=
  mk_model (subs m) (sim_interval m) (gpose m) (velocity m) (blob_return m)
           (position_drive m) s (position_cmd m) (position_data m) (trace m).

Definition set_position_cmd (c : stg_position_cmd_t) (m : stg_model_t)
  : stg_model_t :=
  mk_model (subs m) (sim_interval m) (gpose m) (velocity m) (blob_return m)
           (position_drive m) (position_stall m) c (position_data m) (trace m).

Definition set_position_data (d : stg_position_data_t) (m : stg_model_t)
  : stg_model_t :=
  mk_model (subs m) (sim_interval m) (gpose m) (velocity m) (blob_return m)
           (position_drive m) (position_stall m) (position_cmd m) d (trace m).

Definition set_subs (n : Z) (m : stg_model_t) : stg_model_t :=
  mk_model n (sim_interval m) (gpose m) (velocity m) (blob_return m)
           (position_drive m) (position_stall m) (position_cmd m)
           (position_data m) (trace m).

(** An event is appended at the end of the trace. *)
Definition emit (e : event) (m : stg_model_t) : stg_model_t :=
  mk_model (subs m) (sim_interval m) (gpose m) (velocity m) (blob_return m)
           (position_drive m) (position_stall m) (position_cmd m)
           (position_data m) (trace m ++ [e]).

Definition set_pose (p : stg_pose_t) (d : stg_position_data_t)
  : stg_position_data_t :=
  mk_data p (pose_error d) (origin d) (localization d) (integration_error d).

Definition set_pose_error (p : stg_pose_t) (d : stg_position_data_t)
  : stg_position_data_t :=
  mk_data (pose d) p (origin d) (localization d) (integration_error d).

Definition set_origin (p : stg_pose_t) (d : stg_position_data_t)
  : stg_position_data_t :=
  mk_data (pose d) (pose_error d) p (localization d) (integration_error d).

Definition set_localization (l : stg_position_localization_mode_t)
           (d : stg_position_data_t) : stg_position_data_t :=
  mk_data (pose d) (pose_error d) (origin d) l (integration_error d).

Definition set_integration_error (p : stg_pose_t) (d : stg_position_data_t)
  : stg_position_data_t :=
  mk_data (pose d) (pose_error d) (origin d) (localization d) p.

(** *** The property store *)

(** Modelled from the spec: the property store is not part of the sources
    at hand; of its contract the spec keeps that a write implies a
    notification.  [stg_model_set_property( mod, name, &v, sizeof(v) )]:
    the value is stored and the store is told. *)
Definition stg_model_set_property {A : Type}
           (set : A -> stg_model_t -> stg_model_t) (name : string) (v : A)
           (m : stg_model_t) : stg_model_t :=
  emit (EvSet name) (set v m).

(** Modelled from the spec: [stg_model_property_refresh( mod, name )]
    signals a change notification on the property. *)
Definition stg_model_property_refresh (name : string) (m : stg_model_t)
  : stg_model_t :=
  emit (EvRefresh name) m.

(** Modelled from the spec: the macros [PRINT_ERR] and [PRINT_WARN] of
    stage_internal.h report a message and go on. *)
Definition PRINT_ERR (msg : string) (m : stg_model_t) : stg_model_t :=
  emit (EvErr msg) m.

Definition PRINT_WARN (msg : string) (m : stg_model_t) : stg_model_t :=
  emit (EvWarn msg) m.

(** ** The worldfile *)

(** Modelled from the spec: the worldfile and its functions are not part
    of the sources at hand; they hand typed values to [position_load].
    These are the entries that [position_load] reads, as the worldfile
    functions return them: [None] where [wf_property_exists]
    answers no.  For a string entry the inner option is what
    [wf_read_string( id, key, NULL )] returns, [None] for [NULL]; a tuple
    holds the three values that [wf_read_tuple_length] and
    [wf_read_tuple_angle] return at the indices 0, 1 and 2. *)
Record worldfile : Type := mk_worldfile {
  wf_drive : option (option string);
  wf_odom : bool;
  wf_localization_origin : option (R * R * R);
  wf_odom_error : option (R * R * R);
  wf_localization : option (option string)
}.

(** A worldfile that says nothing about the position model. *)
Definition wf_empty : worldfile := mk_worldfile None false None None None.

(** ** position_init *)

(** The three results of [drand48()] are the arguments [u1], [u2], [u3];
    the seeding of the generator and the toggles of the renderer are left
    out. *)
Definition position_init (u1 u2 u3 : R) (m : stg_model_t) : stg_model_t :=
  let vel := pose_zero in
  let m := stg_model_set_property set_velocity "velocity" vel m in
  let blb := 1%Z in
  let m := stg_model_set_property set_blob_return "blob_return" blb m in
  let drive := STG_POSITION_DRIVE_DEFAULT in
  let m := stg_model_set_property set_position_drive "position_drive" drive m in
  let stall := 0%Z in
  let m := stg_model_set_property set_position_stall "position_stall" stall m in
  let cmd := mk_cmd 0 0 0 STG_POSITION_CONTROL_DEFAULT in
  let m := stg_model_set_property set_position_cmd "position_cmd" cmd m in
  let data :=
    mk_data pose_zero pose_zero pose_zero STG_POSITION_LOCALIZATION_DEFAULT
      (mk_pose
         (u1 * STG_POSITION_INTEGRATION_ERROR_MAX_X
          - STG_POSITION_INTEGRATION_ERROR_MAX_X / 2)
         (u2 * STG_POSITION_INTEGRATION_ERROR_MAX_Y
          - STG_POSITION_INTEGRATION_ERROR_MAX_Y / 2)
         (u3 * STG_POSITION_INTEGRATION_ERROR_MAX_A
          - STG_POSITION_INTEGRATION_ERROR_MAX_A / 2)) in
  stg_model_set_property set_position_data "position_data" data m.

(** ** position_load *)

(** A write through the pointer [data] into the property "position_data":
    the store is not told. *)
Definition poke_data (f : stg_position_data_t -> stg_position_data_t)
           (m : stg_model_t) : stg_model_t :=
  set_position_data (f (position_data m)) m.

(** Lines 180-204: the steering mode. *)
Definition load_drive (wf : worldfile) (m : stg_model_t) : stg_model_t :=
  match wf_drive wf with
  | Some mode_str_opt =>
      (* the property is installed: [now] is not NULL *)
      let now := Some (position_drive m) in
      let drive :=
        match now with
        | Some d => d
        | None => STG_POSITION_DRIVE_DIFFERENTIAL
        end in
      match mode_str_opt with
      | Some mode_str =>
          if String.eqb mode_str "diff" then
            stg_model_set_property set_position_drive "position_drive"
              STG_POSITION_DRIVE_DIFFERENTIAL m
          else if String.eqb mode_str "omni" then
            stg_model_set_property set_position_drive "position_drive"
              STG_POSITION_DRIVE_OMNI m
          else
            let m :=
              PRINT_ERR ("invalid position drive mode specified: "
                           ++ mode_str) m in
            stg_model_set_property set_position_drive "position_drive"
              drive m
      | None => m
      end
  | None => m
  end.

(** Lines 210-218: the entry "odom" is no longer read. *)
Definition load_odom (wf : worldfile) (m : stg_model_t) : stg_model_t :=
  if wf_odom wf then
    PRINT_WARN "the odom property is no longer available" m
  else m.

(** Lines 220-246: the origin of the localization, and the pose in it. *)
Definition load_origin (wf : worldfile) (m : stg_model_t) : stg_model_t :=
  let m := poke_data (set_origin (gpose m)) m in
  match wf_localization_origin wf with
  | Some (ox, oy, oa) =>
      let m := poke_data (set_origin (mk_pose ox oy oa)) m in
      let gp := gpose m in
      let data := position_data m in
      let a := NORMALIZE (pose_a gp - pose_a (origin data)) in
      let cosa := cos a in
      let sina := sin a in
      let dx := pose_x gp - pose_x (origin data) in
      let dy := pose_y gp - pose_y (origin data) in
      let m :=
        poke_data
          (set_pose (mk_pose (dx * cosa + dy * sina) (dy * cosa - dx * sina) a))
          m in
      poke_data (set_pose_error pose_zero) m
  | None => m
  end.

(** Lines 248-257: the parameters of the odometry model. *)
Definition load_odom_error (wf : worldfile) (m : stg_model_t) : stg_model_t :=
  match wf_odom_error wf with
  | Some (ex, ey, ea) => poke_data (set_integration_error (mk_pose ex ey ea)) m
  | None => m
  end.

(** Lines 259-279: the localization model. *)
Definition load_localization (wf : worldfile) (m : stg_model_t) : stg_model_t :=
  match wf_localization wf with
  | Some (Some loc_str) =>
      if String.eqb loc_str "gps" then
        poke_data (set_localization STG_POSITION_LOCALIZATION_GPS) m
      else if String.eqb loc_str "odom" then
        poke_data (set_localization STG_POSITION_LOCALIZATION_ODOM) m
      else
        PRINT_ERR ("unrecognized localization mode " ++ loc_str) m
  | Some None => PRINT_ERR "no localization mode string specified" m
  | None => m
  end.

Definition position_load (wf : worldfile) (m : stg_model_t) : stg_model_t :=
  let m := load_drive wf m in
  let m := load_odom wf m in
  let m := load_origin wf m in
  let m := load_odom_error wf m in
  let m := load_localization wf m in
  stg_model_property_refresh "position_data" m.

(** ** position_startup and position_shutdown *)

Definition position_startup (m : stg_model_t) : stg_model_t := m.

Definition position_shutdown (m : stg_model_t) : stg_model_t :=
  let m := stg_model_set_property set_position_cmd "position_cmd" cmd_zero m in
  stg_model_set_property set_velocity "velocity" pose_zero m.

(** ** position_update *)

Definition Rltb (u v : R) : bool := if Rlt_dec u v then true else false.

(** Assignments to the fields of a pose or of a velocity. *)
Definition with_x (v : R) (p : stg_pose_t) := mk_pose v (pose_y p) (pose_a p).
Definition with_y (v : R) (p : stg_pose_t) := mk_pose (pose_x p) v (pose_a p).
Definition with_a (v : R) (p : stg_pose_t) := mk_pose (pose_x p) (pose_y p) v.

(** A write through the pointer [vel] into the property "velocity". *)
Definition poke_vel (f : stg_velocity_t -> stg_velocity_t) (m : stg_model_t)
  : stg_model_t :=
  set_velocity (f (velocity m)) m.

(** The speed limits of the position controllers and the constants of the
    differential one. *)
Definition max_speed_x : R := 0.4.
Definition max_speed_y : R := 0.4.
Definition max_speed_a : R := 1.0.
Definition close_enough : R := 0.02.

(** Lines 381-434: position control of a differential drive; the result is
    the local [calc]. *)
Definition position_control_differential
           (x_error y_error a_error : R) (data : stg_position_data_t)
  : stg_velocity_t :=
  let calc := pose_zero in
  if (Rltb (fabs x_error) close_enough && Rltb (fabs y_error) close_enough)%bool
  then
    let calc := with_a (MIN a_error max_speed_a) calc in
    let calc := with_a (MAX a_error (- max_speed_a)) calc in
    calc
  else
    let goal_angle := atan2 y_error x_error in
    let goal_distance := hypot y_error x_error in
    let a_error := NORMALIZE (goal_angle - pose_a (pose data)) in
    let calc := with_a (MIN a_error max_speed_a) calc in
    let calc := with_a (MAX a_error (- max_speed_a)) calc in
    if Rltb (fabs a_error) (M_PI / 16) then
      with_x (MIN goal_distance max_speed_x) calc
    else calc.

(** Lines 320-444: the command is turned into a velocity. *)
Definition position_command (m : stg_model_t) : stg_model_t :=
  let data := position_data m in
  let cmd := position_cmd m in
  let drive := position_drive m in
  match cmd_mode cmd with
  | STG_POSITION_CONTROL_VELOCITY =>
      match drive with
      | STG_POSITION_DRIVE_DIFFERENTIAL =>
          let m := poke_vel (with_x (cmd_x cmd)) m in
          let m := poke_vel (with_y 0) m in
          poke_vel (with_a (cmd_a cmd)) m
      | STG_POSITION_DRIVE_OMNI =>
          let m := poke_vel (with_x (cmd_x cmd)) m in
          let m := poke_vel (with_y (cmd_y cmd)) m in
          poke_vel (with_a (cmd_a cmd)) m
      | STG_POSITION_DRIVE_other => PRINT_ERR "unknown steering mode" m
      end
  | STG_POSITION_CONTROL_POSITION =>
      let x_error := cmd_x cmd - pose_x (pose data) in
      let y_error := cmd_y cmd - pose_y (pose data) in
      let a_error := NORMALIZE (cmd_a cmd - pose_a (pose data)) in
      match drive with
      | STG_POSITION_DRIVE_OMNI =>
          let m := poke_vel (with_x (MIN x_error max_speed_x)) m in
          let m := poke_vel (with_y (MIN y_error max_speed_y)) m in
          poke_vel (with_a (MIN a_error max_speed_a)) m
      | STG_POSITION_DRIVE_DIFFERENTIAL =>
          let calc :=
            position_control_differential x_error y_error a_error data in
          let m := poke_vel (with_x (pose_x calc)) m in
          let m := poke_vel (with_y 0) m in
          poke_vel (with_a (pose_a calc)) m
      | STG_POSITION_DRIVE_other => PRINT_ERR "unknown steering mode" m
      end
  | STG_POSITION_CONTROL_other =>
      PRINT_ERR "unrecognized position command mode" m
  end.

(** Lines 303-466: the velocity of this step. *)
Definition position_update_velocity (m : stg_model_t) : stg_model_t :=
  (* stop by default *)
  let m := set_velocity pose_zero m in
  if (subs m =? 0)%Z then m
  else
    let m := position_command m in
    let stall := 0%Z in
    let m :=
      stg_model_set_property set_position_stall "position_stall" stall m in
    stg_model_property_refresh "velocity" m.

(** Lines 471-514: the pose the model believes to have. *)
Definition position_update_localization (m : stg_model_t) : stg_model_t :=
  let data := position_data m in
  let vel := velocity m in
  let m :=
    match localization data with
    | STG_POSITION_LOCALIZATION_GPS =>
        let gp := gpose m in
        let a := NORMALIZE (pose_a gp - pose_a (origin data)) in
        let cosa := cos (pose_a (origin data)) in
        let sina := sin (pose_a (origin data)) in
        let dx := pose_x gp - pose_x (origin data) in
        let dy := pose_y gp - pose_y (origin data) in
        poke_data
          (set_pose (mk_pose (dx * cosa + dy * sina) (dy * cosa - dx * sina) a))
          m
    | STG_POSITION_LOCALIZATION_ODOM =>
        let dt := IZR (sim_interval m) / 1000 in
        let a :=
          NORMALIZE (pose_a (pose data)
                     + (pose_a vel * dt)
                       * (1 + pose_a (integration_error data))) in
        let cosa := cos a in
        let sina := sin a in
        let dx := (pose_x vel * dt) * (1 + pose_x (integration_error data)) in
        let dy := (pose_y vel * dt) * (1 + pose_y (integration_error data)) in
        poke_data
          (set_pose
             (mk_pose (pose_x (pose data) + (dx * cosa + dy * sina))
                      (pose_y (pose data) - (dy * cosa - dx * sina))
                      a))
          m
    | STG_POSITION_LOCALIZATION_other =>
        PRINT_ERR "unknown localization mode" m
    end in
  stg_model_property_refresh "position_data" m.

Section Update.

(** The true pose of the model after the simulator has moved it; it may
    depend on all of the model. *)
Variable true_pose_after : stg_model_t -> stg_pose_t.

(** Modelled from the spec: [_model_update], the update that every model
    inherits, is not part of the sources at hand.  The spec calls it the
    external integrator: it supplies the true pose after applying the
    velocity that the position model wrote. *)
Definition _model_update (m : stg_model_t) : stg_model_t :=
  set_gpose (true_pose_after m) m.

Definition position_update (m : stg_model_t) : stg_model_t :=
  let m := position_update_velocity m in
  (* now inherit the normal update - this does the actual moving *)
  let m := _model_update m in
  position_update_localization m.

End Update.

(** ** What the claims compare the code with *)

(** The spec's [clamp(v, lo, hi)]: [v] brought into [[lo, hi]]. *)
Definition clamp (v lo hi : R) : R := MAX lo (MIN v hi).

(** The true pose [gp] expressed in the frame of [org], in the words of the
    spec: the displacement from the origin to the robot rotated by
    [- org.a], and the heading [normalize(gp.a - org.a)]. *)
Definition pose_in_frame (org gp : stg_pose_t) : stg_pose_t :=
  let dx := pose_x gp - pose_x org in
  let dy := pose_y gp - pose_y org in
  mk_pose (dx * cos (- pose_a org) - dy * sin (- pose_a org))
          (dx * sin (- pose_a org) + dy * cos (- pose_a org))
          (NORMALIZE (pose_a gp - pose_a org)).

(** An integrator under which the model stays where it is. *)
Definition stay (m : stg_model_t) : stg_pose_t := gpose m.

(** An integrator that moves the model by its velocity, taken in the frame
    of the model, over one step of the world. *)
Definition advance (m : stg_model_t) : stg_pose_t :=
  let dt := IZR (sim_interval m) / 1000 in
  let g := gpose m in
  let v := velocity m in
  mk_pose
    (pose_x g + (pose_x v * cos (pose_a g) - pose_y v * sin (pose_a g)) * dt)
    (pose_y g + (pose_x v * sin (pose_a g) + pose_y v * cos (pose_a g)) * dt)
    (NORMALIZE (pose_a g + pose_a v * dt)).

(** *** The life of a model *)

(** What happens to a model once it is created: the simulator steps it,
    loads a worldfile into it, starts it up and shuts it down; clients
    subscribe, unsubscribe and write commands. *)
Inductive operation : Type :=
| OpUpdate
| OpLoad (wf : worldfile)
| OpStartup
| OpShutdown
| OpCommand (cmd : stg_position_cmd_t)
| OpSubs (n : Z).

Section Life.

Variable true_pose_after : stg_model_t -> stg_pose_t.

Definition apply_operation (m : stg_model_t) (o : operation) : stg_model_t :=
  match o with
  | OpUpdate => position_update true_pose_after m
  | OpLoad wf => position_load wf m
  | OpStartup => position_startup m
  | OpShutdown => position_shutdown m
  | OpCommand cmd =>
      stg_model_set_property set_position_cmd "position_cmd" cmd m
  | OpSubs n => set_subs n m
  end.

Definition run (ops : list operation) (m : stg_model_t) : stg_model_t :=
  fold_left apply_operation ops m.

End Life.

(** [n] steps of the simulation. *)
Fixpoint ticks (true_pose_after : stg_model_t -> stg_pose_t) (n : nat)
         (m : stg_model_t) : stg_model_t :=
  match n with
  | O => m
  | S k => ticks true_pose_after k (position_update true_pose_after m)
  end.

(** The events of the trace of [m'] that came after those of [m]. *)
Definition events_since (m m' : stg_model_t) : list event :=
  skipn (List.length (trace m)) (trace m').

(** The worldfile [wf] with its entry "drive" taken out. *)
Definition wf_without_drive (wf : worldfile) : worldfile :=
  mk_worldfile None (wf_odom wf) (wf_localization_origin wf)
               (wf_odom_error wf) (wf_localization wf).

(** The worldfile [wf] with its entry "localization" taken out. *)
Definition wf_without_localization (wf : worldfile) : worldfile :=
  mk_worldfile (wf_drive wf) (wf_odom wf) (wf_localization_origin wf)
               (wf_odom_error wf) None.

(** One step of odometry in the words of the spec: the heading is updated
    first, then the displacement [(dx, dy)] is rotated by the updated
    heading and added to the position. *)
Definition odometry_by_rotation (dt : R) (err vel p : stg_pose_t)
  : stg_pose_t :=
  let a := NORMALIZE (pose_a p + pose_a vel * dt * (1 + pose_a err)) in
  let dx := pose_x vel * dt * (1 + pose_x err) in
  let dy := pose_y vel * dt * (1 + pose_y err) in
  mk_pose (pose_x p + (dx * cos a - dy * sin a))
          (pose_y p + (dx * sin a + dy * cos a))
          a.

(** *** Models to try the code on *)

(** A model at the true pose [g] in a world that steps every [interval]
    milliseconds, with [n] subscribers, steered by [drive], given the
    command [cmd], believing to be at [p] by the localization [loc], without
    integration error and with the origin [org]. *)
Definition a_model (n interval : Z) (g : stg_pose_t)
           (drive : stg_position_drive_mode_t) (cmd : stg_position_cmd_t)
           (loc : stg_position_localization_mode_t) (org p : stg_pose_t)
  : stg_model_t :=
  mk_model n interval g pose_zero 1 drive 0 cmd
           (mk_data p pose_zero org loc pose_zero) [].

(** A model as the simulator hands it to [position_init]: nothing in it
    but its place [g] in the world. *)
Definition new_model (g : stg_pose_t) : stg_model_t :=
  mk_model 0 100 g pose_zero 0 STG_POSITION_DRIVE_other 0
           (mk_cmd 0 0 0 STG_POSITION_CONTROL_other)
           (mk_data pose_zero pose_zero pose_zero
                    STG_POSITION_LOCALIZATION_other pose_zero) [].

(** *** What an operation leaves alone *)

(** Two models with the same subscriptions, world, true pose, velocity,
    stall flag and command. *)
Definition same_motion (m m' : stg_model_t) : Prop :=
  subs m' = subs m /\ sim_interval m' = sim_interval m /\
  gpose m' = gpose m /\ velocity m' = velocity m /\
  position_stall m' = position_stall m /\ position_cmd m' = position_cmd m.

(** The models that drive straight ahead at the speed [vx] by odometry
    without integration error: subscribed, under velocity control with the
    command [(vx, 0, 0)]. *)
Definition drives_straight (vx : R) (m : stg_model_t) : Prop :=
  subs m <> 0%Z /\
  position_cmd m = mk_cmd vx 0 0 STG_POSITION_CONTROL_VELOCITY /\
  (position_drive m = STG_POSITION_DRIVE_DIFFERENTIAL \/
   position_drive m = STG_POSITION_DRIVE_OMNI) /\
  localization (position_data m) = STG_POSITION_LOCALIZATION_ODOM /\
  integration_error (position_data m) = pose_zero.

(** The believed heading is a normalized angle. *)
Definition heading_normalized (m : stg_model_t) : Prop :=
  - PI < pose_a (pose (position_data m)) <= PI.

(** The trace of [m'] continues the one of [m]. *)
Definition trace_grows (m m' : stg_model_t) : Prop :=
  exists evs, trace m' = trace m ++ evs.

(** Two models with the same position data at the same true pose. *)
Definition same_place (m1 m2 : stg_model_t) : Prop :=
  position_data m1 = position_data m2 /\ gpose m1 = gpose m2.

(** The worldfile [wf] with its entry "odom" taken out. *)
Definition wf_without_odom (wf : worldfile) : worldfile :=
  mk_worldfile (wf_drive wf) false (wf_localization_origin wf)
               (wf_odom_error wf) (wf_localization wf).

(** * Properties *)

(** ** The mathematical functions *)

(** Case analysis on the comparisons of a goal. *)
Ltac case_Rlt :=
  repeat match goal with
         | |- context [Rlt_dec ?u ?v] => destruct (Rlt_dec u v)
         | |- context [Rle_dec ?u ?v] => destruct (Rle_dec u v)
         end.

Lemma MIN_Rmin (u v : R) : MIN u v = Rmin u v.
Proof.
  unfold MIN, Rmin.
  destruct (Rlt_dec u v), (Rle_dec u v); lra.
Qed.

Lemma MAX_Rmax (u v : R) : MAX u v = Rmax u v.
Proof.
  unfold MAX, Rmax.
  destruct (Rlt_dec v u), (Rle_dec u v); lra.
Qed.

Lemma clamp_bounds (v lo hi : R) : lo <= hi -> lo <= clamp v lo hi <= hi.
Proof.
  intros Hle. unfold clamp, MAX, MIN.
  destruct (Rlt_dec v hi); destruct (Rlt_dec _ lo); lra.
Qed.

Lemma atan2_bound (y x : R) : - PI < atan2 y x <= PI.
Proof.
  pose proof PI_RGT_0 as Hpi.
  pose proof (atan_bound (y / x)) as [Hlo Hhi].
  unfold atan2.
  destruct (Rlt_dec 0 x) as [Hx | Hx]; [lra |].
  destruct (Rlt_dec x 0) as [Hx' | Hx'].
  - assert (Hinv : / x < 0) by now apply Rinv_lt_0_compat.
    destruct (Rle_dec 0 y) as [Hy | Hy].
    + assert (Hq : y / x <= 0).
      { unfold Rdiv. rewrite <- (Rmult_0_l (/ x)).
        apply Rmult_le_compat_neg_l with (r := / x) in Hy; [| lra].
        rewrite Rmult_0_r in Hy. rewrite Rmult_comm. lra. }
      assert (Ha : atan (y / x) <= 0).
      { destruct Hq as [Hq | Hq].
        - left. rewrite <- atan_0. now apply atan_increasing.
        - rewrite Hq, atan_0. lra. }
      lra.
    + assert (Hq : 0 < y / x).
      { unfold Rdiv. replace (y * / x) with ((- y) * (- / x)) by ring.
        apply Rmult_lt_0_compat; lra. }
      assert (Ha : 0 < atan (y / x)).
      { rewrite <- atan_0. now apply atan_increasing. }
      lra.
  - destruct (Rlt_dec 0 y); [lra |].
    destruct (Rlt_dec y 0); lra.
Qed.

Lemma NORMALIZE_bound (z : R) : - PI < NORMALIZE z <= PI.
Proof. unfold NORMALIZE. apply atan2_bound. Qed.

Lemma NORMALIZE_0 : NORMALIZE 0 = 0.
Proof.
  unfold NORMALIZE, atan2. rewrite sin_0, cos_0.
  destruct (Rlt_dec 0 1); [| lra].
  unfold Rdiv. rewrite Rmult_0_l. apply atan_0.
Qed.

Lemma NORMALIZE_PI2 : NORMALIZE (PI / 2) = PI / 2.
Proof.
  unfold NORMALIZE, atan2. rewrite sin_PI2, cos_PI2.
  destruct (Rlt_dec 0 0); [lra |].
  destruct (Rlt_dec 0 1); [reflexivity | lra].
Qed.

(** An angle that is in [(-PI, PI]] already is left as it is. *)
Lemma NORMALIZE_id (z : R) : - PI < z <= PI -> NORMALIZE z = z.
Proof.
  intros [Hlo Hhi].
  pose proof PI_RGT_0 as Hpi.
  unfold NORMALIZE, atan2.
  destruct (Rtotal_order z (- (PI / 2))) as [Hz | [Hz | Hz]].
  - (* third quadrant *)
    assert (Hc : cos z < 0).
    { replace z with (- (- z)) by ring. rewrite cos_neg.
      apply cos_lt_0; lra. }
    assert (Hs : sin z < 0) by (apply sin_lt_0_var; lra).
    destruct (Rlt_dec 0 (cos z)); [lra |].
    destruct (Rlt_dec (cos z) 0); [| lra].
    destruct (Rle_dec 0 (sin z)); [lra |].
    replace (sin z / cos z) with (tan (z + PI)).
    + rewrite atan_tan; lra.
    + unfold tan. rewrite neg_sin, neg_cos. field. lra.
  - subst z. rewrite sin_neg, cos_neg, sin_PI2, cos_PI2.
    destruct (Rlt_dec 0 0); [lra |].
    destruct (Rlt_dec 0 (- (1))); [lra |].
    destruct (Rlt_dec (- (1)) 0); [reflexivity | lra].
  - destruct (Rtotal_order z (PI / 2)) as [Hz' | [Hz' | Hz']].
    + assert (Hc : 0 < cos z) by (apply cos_gt_0; lra).
      destruct (Rlt_dec 0 (cos z)); [| lra].
      change (sin z / cos z) with (tan z). apply atan_tan. lra.
    + subst z. rewrite sin_PI2, cos_PI2.
      destruct (Rlt_dec 0 0); [lra |].
      destruct (Rlt_dec 0 1); [reflexivity | lra].
    + assert (Hc : cos z < 0) by (apply cos_lt_0; lra).
      assert (Hs : 0 <= sin z) by (apply sin_ge_0; lra).
      destruct (Rlt_dec 0 (cos z)); [lra |].
      destruct (Rlt_dec (cos z) 0); [| lra].
      destruct (Rle_dec 0 (sin z)); [| lra].
      replace (sin z / cos z) with (tan (z - PI)).
      * rewrite atan_tan; lra.
      * unfold tan. replace (z - PI) with (- (PI - z)) by ring.
        rewrite sin_neg, cos_neg.
        replace (PI - z) with (- z + PI) by ring.
        rewrite neg_sin, neg_cos, sin_neg, cos_neg. field. lra.
Qed.

(** ** What an operation leaves alone *)

Lemma velocity_position_update tpa m :
  velocity (position_update tpa m) = velocity (position_update_velocity m).
Proof.
  unfold position_update, position_update_localization.
  destruct (localization (position_data (_model_update tpa _))); reflexivity.
Qed.

Lemma position_update_velocity_unsubscribed m :
  subs m = 0%Z -> position_update_velocity m = set_velocity pose_zero m.
Proof.
  intros H. unfold position_update_velocity. cbn [subs set_velocity].
  rewrite H. reflexivity.
Qed.

Lemma position_update_velocity_subscribed m :
  subs m <> 0%Z ->
  position_update_velocity m =
  stg_model_property_refresh "velocity"
    (stg_model_set_property set_position_stall "position_stall" 0%Z
       (position_command (set_velocity pose_zero m))).
Proof.
  intros H. unfold position_update_velocity. cbn [subs set_velocity].
  apply Z.eqb_neq in H. rewrite H. reflexivity.
Qed.

(** [position_command] writes the velocity and the trace only. *)
Lemma position_command_frame m :
  let m' := position_command m in
  subs m' = subs m /\ sim_interval m' = sim_interval m /\
  gpose m' = gpose m /\ blob_return m' = blob_return m /\
  position_drive m' = position_drive m /\
  position_stall m' = position_stall m /\
  position_cmd m' = position_cmd m /\ position_data m' = position_data m.
Proof.
  destruct m as [n i g v b drive st [cx cy ca mode] d tr].
  unfold position_command. cbn.
  destruct mode, drive; cbn; repeat split; reflexivity.
Qed.

(** A step changes neither the subscriptions, nor the world, nor the
    steering mode, nor the command. *)
Lemma position_update_frame tpa m :
  let m' := position_update tpa m in
  subs m' = subs m /\ sim_interval m' = sim_interval m /\
  position_drive m' = position_drive m /\ position_cmd m' = position_cmd m.
Proof.
  destruct (position_command_frame (set_velocity pose_zero m))
    as (Hs & Hi & _ & _ & Hd & _ & Hc & _).
  cbn [subs sim_interval position_drive position_cmd set_velocity] in *.
  unfold position_update, position_update_localization.
  destruct (localization _);
    (destruct (Z.eq_dec (subs m) 0) as [E | E];
     [ rewrite (position_update_velocity_unsubscribed m E)
     | rewrite (position_update_velocity_subscribed m E) ]);
    cbn; auto.
Qed.

(** Of the position data, a step writes the pose only. *)
Lemma position_update_data_frame tpa m :
  let d := position_data m in
  let d' := position_data (position_update tpa m) in
  pose_error d' = pose_error d /\ origin d' = origin d /\
  localization d' = localization d /\
  integration_error d' = integration_error d.
Proof.
  destruct (position_command_frame (set_velocity pose_zero m))
    as (_ & _ & _ & _ & _ & _ & _ & Hd).
  cbn [position_data set_velocity] in Hd.
  assert (Hv : position_data (position_update_velocity m) = position_data m).
  { destruct (Z.eq_dec (subs m) 0) as [E | E].
    - rewrite (position_update_velocity_unsubscribed m E). reflexivity.
    - rewrite (position_update_velocity_subscribed m E). cbn. exact Hd. }
  unfold position_update, position_update_localization.
  cbn [position_data _model_update set_gpose].
  rewrite Hv.
  destruct (localization (position_data m)) eqn:El;
    cbn; rewrite ?Hv, ?El; auto.
Qed.

(** ** The velocity of a step *)

(** The velocity that a step leaves, when someone is subscribed, is the one
    that [position_command] computes from a velocity of zero. *)
Lemma velocity_of_step tpa m :
  subs m <> 0%Z ->
  velocity (position_update tpa m) =
  velocity (position_command (set_velocity pose_zero m)).
Proof.
  intros H. rewrite velocity_position_update.
  rewrite (position_update_velocity_subscribed m H). reflexivity.
Qed.

Lemma velocity_control_differential tpa m :
  subs m <> 0%Z ->
  cmd_mode (position_cmd m) = STG_POSITION_CONTROL_VELOCITY ->
  position_drive m = STG_POSITION_DRIVE_DIFFERENTIAL ->
  velocity (position_update tpa m)
  = mk_pose (cmd_x (position_cmd m)) 0 (cmd_a (position_cmd m)).
Proof.
  intros Hs Hm Hd. rewrite (velocity_of_step tpa m Hs).
  unfold position_command. cbn [position_cmd position_drive set_velocity].
  rewrite Hm, Hd. reflexivity.
Qed.

Lemma velocity_control_omni tpa m :
  subs m <> 0%Z ->
  cmd_mode (position_cmd m) = STG_POSITION_CONTROL_VELOCITY ->
  position_drive m = STG_POSITION_DRIVE_OMNI ->
  velocity (position_update tpa m)
  = mk_pose (cmd_x (position_cmd m)) (cmd_y (position_cmd m))
            (cmd_a (position_cmd m)).
Proof.
  intros Hs Hm Hd. rewrite (velocity_of_step tpa m Hs).
  unfold position_command. cbn [position_cmd position_drive set_velocity].
  rewrite Hm, Hd. reflexivity.
Qed.

(** C8: under velocity control and with a subscriber, the velocity of the
    step is the command [(x, 0, a)] with a differential drive, where the
    step reports no error and its events are the reset of the stall flag and
    the refresh of the velocity, and the command [(x, y, a)] with an
    omnidirectional drive. *)
Theorem velocity_control_output tpa m :
  subs m <> 0%Z ->
  cmd_mode (position_cmd m) = STG_POSITION_CONTROL_VELOCITY ->
  (position_drive m = STG_POSITION_DRIVE_DIFFERENTIAL ->
   velocity (position_update tpa m)
   = mk_pose (cmd_x (position_cmd m)) 0 (cmd_a (position_cmd m))
   /\ trace (position_update_velocity m)
      = trace m ++ [EvSet "position_stall"; EvRefresh "velocity"])
  /\ (position_drive m = STG_POSITION_DRIVE_OMNI ->
      velocity (position_update tpa m)
      = mk_pose (cmd_x (position_cmd m)) (cmd_y (position_cmd m))
                (cmd_a (position_cmd m))).
Proof.
  intros Hs Hm.
  split; intros Hd.
  - split.
    + now apply velocity_control_differential.
    + rewrite (position_update_velocity_subscribed m Hs).
      unfold position_command. cbn [position_cmd position_drive set_velocity].
      rewrite Hm, Hd. cbn. rewrite <- app_assoc. reflexivity.
  - now apply velocity_control_omni.
Qed.

Lemma velocity_control_output_witness :
  velocity
    (position_update advance
       (a_model 1 100 pose_zero STG_POSITION_DRIVE_DIFFERENTIAL
                (mk_cmd 2 3 5 STG_POSITION_CONTROL_VELOCITY)
                STG_POSITION_LOCALIZATION_GPS pose_zero pose_zero))
  = mk_pose 2 0 5
  /\ velocity
       (position_update advance
          (a_model 1 100 pose_zero STG_POSITION_DRIVE_OMNI
                   (mk_cmd 2 3 5 STG_POSITION_CONTROL_VELOCITY)
                   STG_POSITION_LOCALIZATION_GPS pose_zero pose_zero))
     = mk_pose 2 3 5.
Proof.
  split.
  - apply (velocity_control_output advance
             (a_model 1 100 pose_zero STG_POSITION_DRIVE_DIFFERENTIAL
                      (mk_cmd 2 3 5 STG_POSITION_CONTROL_VELOCITY)
                      STG_POSITION_LOCALIZATION_GPS pose_zero pose_zero)).
    + simpl. lia.
    + reflexivity.
    + reflexivity.
  - apply (velocity_control_output advance
             (a_model 1 100 pose_zero STG_POSITION_DRIVE_OMNI
                      (mk_cmd 2 3 5 STG_POSITION_CONTROL_VELOCITY)
                      STG_POSITION_LOCALIZATION_GPS pose_zero pose_zero)).
    + simpl. lia.
    + reflexivity.
    + reflexivity.
Defined.

(** C6: under position control of an omnidirectional drive and with a
    subscriber, each component of the velocity is the error on its axis cut
    off above at the speed limit, [(MIN ex 0.4, MIN ey 0.4, MIN ea 1.0)];
    an error below the limit, a negative one in particular, is passed on as
    it is; from the pose [(0,0,0)] the target [(1,1,0)] gives
    [(0.4, 0.4, 0)]. *)
Theorem omni_position_control tpa m :
  subs m <> 0%Z ->
  cmd_mode (position_cmd m) = STG_POSITION_CONTROL_POSITION ->
  position_drive m = STG_POSITION_DRIVE_OMNI ->
  let p := pose (position_data m) in
  let ex := cmd_x (position_cmd m) - pose_x p in
  let ey := cmd_y (position_cmd m) - pose_y p in
  let ea := NORMALIZE (cmd_a (position_cmd m) - pose_a p) in
  let v := velocity (position_update tpa m) in
  v = mk_pose (MIN ex 0.4) (MIN ey 0.4) (MIN ea 1.0)
  /\ (ex < 0.4 -> pose_x v = ex)
  /\ (ey < 0.4 -> pose_y v = ey)
  /\ (ea < 1.0 -> pose_a v = ea)
  /\ (p = pose_zero ->
      cmd_x (position_cmd m) = 1 -> cmd_y (position_cmd m) = 1 ->
      cmd_a (position_cmd m) = 0 ->
      v = mk_pose 0.4 0.4 0).
Proof.
  intros Hs Hm Hd p ex ey ea v.
  assert (Hv : v = mk_pose (MIN ex 0.4) (MIN ey 0.4) (MIN ea 1.0)).
  { unfold v. rewrite (velocity_of_step tpa m Hs).
    unfold position_command.
    cbn [position_cmd position_drive position_data set_velocity].
    rewrite Hm, Hd. reflexivity. }
  split; [exact Hv |].
  rewrite Hv. cbn [pose_x pose_y pose_a].
  repeat split.
  - intros H. unfold MIN. destruct (Rlt_dec ex 0.4); [reflexivity | lra].
  - intros H. unfold MIN. destruct (Rlt_dec ey 0.4); [reflexivity | lra].
  - intros H. unfold MIN. destruct (Rlt_dec ea 1.0); [reflexivity | lra].
  - intros Hp Hx Hy Ha.
    unfold ex, ey, ea. fold p. rewrite Hp, Hx, Hy, Ha.
    cbn [pose_x pose_y pose_a pose_zero].
    replace (0 - 0) with 0 by ring. rewrite NORMALIZE_0.
    unfold MIN.
    destruct (Rlt_dec (1 - 0) 0.4); [lra |].
    destruct (Rlt_dec 0 1.0); [reflexivity | lra].
Qed.

Lemma omni_position_control_witness :
  velocity
    (position_update advance
       (a_model 1 100 pose_zero STG_POSITION_DRIVE_OMNI
                (mk_cmd 1 1 0 STG_POSITION_CONTROL_POSITION)
                STG_POSITION_LOCALIZATION_GPS pose_zero pose_zero))
  = mk_pose 0.4 0.4 0.
Proof.
  apply (omni_position_control advance
           (a_model 1 100 pose_zero STG_POSITION_DRIVE_OMNI
                    (mk_cmd 1 1 0 STG_POSITION_CONTROL_POSITION)
                    STG_POSITION_LOCALIZATION_GPS pose_zero pose_zero));
    try reflexivity.
  simpl. lia.
Defined.

(** ** Position control of a differential drive *)

Lemma Rltb_true (u v : R) : u < v -> Rltb u v = true.
Proof. intros H. unfold Rltb. destruct (Rlt_dec u v); [reflexivity | lra]. Qed.

Lemma Rltb_false (u v : R) : ~ u < v -> Rltb u v = false.
Proof. intros H. unfold Rltb. destruct (Rlt_dec u v); [lra | reflexivity]. Qed.

(** The turn rate that the differential controller computes: of the two
    assignments to [calc.a] the second one stands, which bounds the heading
    error from below only. *)
Lemma position_control_differential_a (ex ey ea : R) (d : stg_position_data_t) :
  pose_a (position_control_differential ex ey ea d)
  = if (Rltb (fabs ex) close_enough && Rltb (fabs ey) close_enough)%bool
    then MAX ea (- max_speed_a)
    else MAX (NORMALIZE (atan2 ey ex - pose_a (pose d))) (- max_speed_a).
Proof.
  unfold position_control_differential.
  destruct (Rltb (fabs ex) close_enough && Rltb (fabs ey) close_enough)%bool.
  - reflexivity.
  - destruct (Rltb _ (M_PI / 16)); reflexivity.
Qed.

Lemma differential_position_velocity tpa m :
  subs m <> 0%Z ->
  cmd_mode (position_cmd m) = STG_POSITION_CONTROL_POSITION ->
  position_drive m = STG_POSITION_DRIVE_DIFFERENTIAL ->
  let p := pose (position_data m) in
  let calc :=
    position_control_differential
      (cmd_x (position_cmd m) - pose_x p) (cmd_y (position_cmd m) - pose_y p)
      (NORMALIZE (cmd_a (position_cmd m) - pose_a p)) (position_data m) in
  velocity (position_update tpa m) = mk_pose (pose_x calc) 0 (pose_a calc).
Proof.
  intros Hs Hm Hd p calc.
  rewrite (velocity_of_step tpa m Hs).
  unfold position_command.
  cbn [position_cmd position_drive position_data set_velocity].
  rewrite Hm, Hd. reflexivity.
Qed.

(** The turn rate of a differential drive under position control, on the
    spot and towards the goal: the heading error, bounded from below by
    [- max_speed_a]; it is the heading error cut off on both sides as long
    as that error is at most [max_speed_a]. *)
Lemma differential_turn_rate tpa m :
  subs m <> 0%Z ->
  cmd_mode (position_cmd m) = STG_POSITION_CONTROL_POSITION ->
  position_drive m = STG_POSITION_DRIVE_DIFFERENTIAL ->
  let p := pose (position_data m) in
  let ex := cmd_x (position_cmd m) - pose_x p in
  let ey := cmd_y (position_cmd m) - pose_y p in
  let ea :=
    if (Rltb (fabs ex) close_enough && Rltb (fabs ey) close_enough)%bool
    then NORMALIZE (cmd_a (position_cmd m) - pose_a p)
    else NORMALIZE (atan2 ey ex - pose_a p) in
  let va := pose_a (velocity (position_update tpa m)) in
  va = MAX ea (- max_speed_a)
  /\ - max_speed_a <= va
  /\ (ea <= max_speed_a -> va = clamp ea (- max_speed_a) max_speed_a)
  /\ (max_speed_a < ea -> va = ea).
Proof.
  intros Hs Hm Hd p ex ey ea va.
  assert (Hva : va = MAX ea (- max_speed_a)).
  { unfold va. rewrite (differential_position_velocity tpa m Hs Hm Hd).
    cbn [pose_a]. rewrite position_control_differential_a.
    unfold ea, ex, ey, p.
    destruct (Rltb _ close_enough && Rltb _ close_enough)%bool; reflexivity. }
  split; [exact Hva |].
  rewrite Hva. clearbody ea. clear.
  unfold clamp, MAX, MIN, max_speed_a.
  repeat split.
  - case_Rlt; lra.
  - intros H. destruct (Rlt_dec ea 1.0); case_Rlt; lra.
  - intros H. case_Rlt; lra.
Qed.

Lemma atan2_1_0 : atan2 1 0 = PI / 2.
Proof.
  unfold atan2.
  destruct (Rlt_dec 0 0); [lra |].
  destruct (Rlt_dec 0 1); [reflexivity | lra].
Qed.

Lemma MAX_PI2 : MAX (PI / 2) (- max_speed_a) = PI / 2.
Proof.
  pose proof PI2_1. unfold MAX, max_speed_a.
  case_Rlt; [reflexivity | lra].
Qed.

(** C1, where the code parts from it: with a differential drive under
    position control the turn rate is not held below [maxSpeedA = 1.0].  A
    model at the pose [(0,0,0)] sent to the target [(0,0,PI/2)] turns on the
    spot at [PI/2 > 1.0], and sent to the target [(0,1,0)] it turns to face
    the goal at [PI/2 > 1.0]; the heading error cut off on both sides would
    be [1.0] in either case. *)
Theorem differential_turn_rate_exceeds_limit tpa :
  let on_the_spot :=
    a_model 1 100 pose_zero STG_POSITION_DRIVE_DIFFERENTIAL
            (mk_cmd 0 0 (PI / 2) STG_POSITION_CONTROL_POSITION)
            STG_POSITION_LOCALIZATION_GPS pose_zero pose_zero in
  let to_the_goal :=
    a_model 1 100 pose_zero STG_POSITION_DRIVE_DIFFERENTIAL
            (mk_cmd 0 1 0 STG_POSITION_CONTROL_POSITION)
            STG_POSITION_LOCALIZATION_GPS pose_zero pose_zero in
  pose_a (velocity (position_update tpa on_the_spot)) = PI / 2
  /\ pose_a (velocity (position_update tpa to_the_goal)) = PI / 2
  /\ max_speed_a < PI / 2
  /\ clamp (NORMALIZE (PI / 2 - 0)) (- max_speed_a) max_speed_a = max_speed_a
  /\ clamp (NORMALIZE (atan2 (1 - 0) (0 - 0) - 0)) (- max_speed_a) max_speed_a
     = max_speed_a.
Proof.
  intros on_the_spot to_the_goal.
  pose proof PI2_1 as Hpi.
  assert (Hclamp : clamp (PI / 2) (- max_speed_a) max_speed_a = max_speed_a).
  { unfold clamp, MIN, max_speed_a.
    destruct (Rlt_dec (PI / 2) 1.0); [lra |].
    unfold MAX. case_Rlt; [lra | reflexivity]. }
  assert (H0 : Rltb (fabs (0 - 0)) close_enough = true).
  { apply Rltb_true. unfold fabs, close_enough.
    replace (0 - 0) with 0 by ring. rewrite Rabs_R0. lra. }
  assert (H1 : Rltb (fabs (1 - 0)) close_enough = false).
  { apply Rltb_false. unfold fabs, close_enough.
    replace (1 - 0) with 1 by ring. rewrite Rabs_R1. lra. }
  replace (PI / 2 - 0) with (PI / 2) by ring.
  replace (1 - 0) with 1 in * by ring.
  replace (0 - 0) with 0 in * by ring.
  rewrite atan2_1_0.
  replace (PI / 2 - 0) with (PI / 2) by ring.
  rewrite NORMALIZE_PI2.
  repeat split; try exact Hclamp.
  - rewrite differential_position_velocity;
      [| simpl; lia | reflexivity | reflexivity].
    cbn [pose_a]. rewrite position_control_differential_a.
    cbn [on_the_spot a_model position_cmd position_data pose cmd_x cmd_y cmd_a
         pose_x pose_y pose_a pose_zero].
    replace (0 - 0) with 0 by ring. rewrite H0. cbn [andb].
    replace (PI / 2 - 0) with (PI / 2) by ring.
    rewrite NORMALIZE_PI2. apply MAX_PI2.
  - rewrite differential_position_velocity;
      [| simpl; lia | reflexivity | reflexivity].
    cbn [pose_a]. rewrite position_control_differential_a.
    cbn [to_the_goal a_model position_cmd position_data pose cmd_x cmd_y cmd_a
         pose_x pose_y pose_a pose_zero].
    replace (1 - 0) with 1 by ring. replace (0 - 0) with 0 by ring.
    rewrite H0, H1. cbn [andb].
    rewrite atan2_1_0. replace (PI / 2 - 0) with (PI / 2) by ring.
    rewrite NORMALIZE_PI2. apply MAX_PI2.
  - unfold max_speed_a. lra.
Qed.

(** ** Loading a worldfile *)

(** What the entries before "localization_origin" leave alone. *)
Lemma load_drive_frame wf m :
  let m' := load_drive wf m in
  subs m' = subs m /\ sim_interval m' = sim_interval m /\
  gpose m' = gpose m /\ velocity m' = velocity m /\
  position_stall m' = position_stall m /\
  position_cmd m' = position_cmd m /\ position_data m' = position_data m.
Proof.
  unfold load_drive.
  destruct (wf_drive wf) as [[s |] |]; cbn; auto 10.
  destruct (String.eqb s "diff"); [cbn; auto 10 |].
  destruct (String.eqb s "omni"); cbn; auto 10.
Qed.

Lemma load_odom_frame wf m :
  let m' := load_odom wf m in
  subs m' = subs m /\ sim_interval m' = sim_interval m /\
  gpose m' = gpose m /\ velocity m' = velocity m /\
  position_drive m' = position_drive m /\
  position_stall m' = position_stall m /\
  position_cmd m' = position_cmd m /\ position_data m' = position_data m.
Proof.
  unfold load_odom. destruct (wf_odom wf); cbn; auto 10.
Qed.

Lemma load_origin_data wf m :
  let d := position_data m in
  let d' := position_data (load_origin wf m) in
  localization d' = localization d /\
  integration_error d' = integration_error d /\
  match wf_localization_origin wf with
  | Some (ox, oy, oa) =>
      let a := NORMALIZE (pose_a (gpose m) - oa) in
      let dx := pose_x (gpose m) - ox in
      let dy := pose_y (gpose m) - oy in
      pose d' = mk_pose (dx * cos a + dy * sin a) (dy * cos a - dx * sin a) a
      /\ pose_error d' = pose_zero
      /\ origin d' = mk_pose ox oy oa
  | None =>
      pose d' = pose d /\ pose_error d' = pose_error d /\ origin d' = gpose m
  end.
Proof.
  unfold load_origin.
  destruct (wf_localization_origin wf) as [[[ox oy] oa] |]; cbn; auto.
Qed.

Lemma load_odom_error_data wf m :
  let d := position_data m in
  let d' := position_data (load_odom_error wf m) in
  pose d' = pose d /\ pose_error d' = pose_error d /\ origin d' = origin d /\
  localization d' = localization d /\
  integration_error d' =
    match wf_odom_error wf with
    | Some (ex, ey, ea) => mk_pose ex ey ea
    | None => integration_error d
    end.
Proof.
  unfold load_odom_error.
  destruct (wf_odom_error wf) as [[[ex ey] ea] |]; cbn; auto.
Qed.

Lemma load_localization_data wf m :
  let d := position_data m in
  let d' := position_data (load_localization wf m) in
  pose d' = pose d /\ pose_error d' = pose_error d /\ origin d' = origin d /\
  integration_error d' = integration_error d.
Proof.
  unfold load_localization.
  destruct (wf_localization wf) as [[s |] |]; cbn; auto.
  destruct (String.eqb s "gps"); [cbn; auto |].
  destruct (String.eqb s "odom"); cbn; auto.
Qed.

(** The pose, the pose error, the origin and the integration error after
    [position_load]. *)
Lemma position_load_data wf m :
  let d := position_data m in
  let d' := position_data (position_load wf m) in
  integration_error d' =
    match wf_odom_error wf with
    | Some (ex, ey, ea) => mk_pose ex ey ea
    | None => integration_error d
    end
  /\ match wf_localization_origin wf with
     | Some (ox, oy, oa) =>
         let a := NORMALIZE (pose_a (gpose m) - oa) in
         let dx := pose_x (gpose m) - ox in
         let dy := pose_y (gpose m) - oy in
         pose d' = mk_pose (dx * cos a + dy * sin a) (dy * cos a - dx * sin a) a
         /\ pose_error d' = pose_zero
         /\ origin d' = mk_pose ox oy oa
     | None =>
         pose d' = pose d /\ pose_error d' = pose_error d /\ origin d' = gpose m
     end.
Proof.
  unfold position_load. cbn zeta.
  set (m1 := load_drive wf m).
  set (m2 := load_odom wf m1).
  set (m3 := load_origin wf m2).
  set (m4 := load_odom_error wf m3).
  set (m5 := load_localization wf m4).
  destruct (load_drive_frame wf m) as (_ & _ & Hg1 & _ & _ & _ & Hd1).
  destruct (load_odom_frame wf m1) as (_ & _ & Hg2 & _ & _ & _ & _ & Hd2).
  destruct (load_origin_data wf m2) as (_ & Hi3 & H3).
  destruct (load_odom_error_data wf m3) as (Hp4 & He4 & Ho4 & _ & Hi4).
  destruct (load_localization_data wf m4) as (Hp5 & He5 & Ho5 & Hi5).
  fold m1 in Hg1, Hd1. fold m2 in Hg2, Hd2, Hi3, H3.
  fold m3 in H3, Hi3, Hp4, He4, Ho4, Hi4.
  fold m4 in Hp5, He5, Ho5, Hi5, Hp4, He4, Ho4, Hi4. fold m5 in Hp5, He5, Ho5, Hi5.
  change (position_data (stg_model_property_refresh "position_data" m5))
    with (position_data m5).
  rewrite Hi5, Hp5, He5, Ho5, Hi4, Hp4, He4, Ho4, Hi3.
  rewrite Hg2, Hg1, Hd2, Hd1 in H3.
  rewrite Hd2, Hd1.
  split; [reflexivity | exact H3].
Qed.

Lemma same_motion_refl m : same_motion m m.
Proof. unfold same_motion. auto 10. Qed.

Lemma same_motion_trans m1 m2 m3 :
  same_motion m1 m2 -> same_motion m2 m3 -> same_motion m1 m3.
Proof.
  unfold same_motion.
  intros (A1 & A2 & A3 & A4 & A5 & A6) (B1 & B2 & B3 & B4 & B5 & B6).
  repeat split; congruence.
Qed.

Lemma same_motion_emit e m : same_motion m (emit e m).
Proof. unfold same_motion. cbn. auto 10. Qed.

Lemma same_motion_poke_data f m : same_motion m (poke_data f m).
Proof. unfold same_motion. cbn. auto 10. Qed.

Lemma same_motion_set_drive name d m :
  same_motion m (stg_model_set_property set_position_drive name d m).
Proof. unfold same_motion. cbn. auto 10. Qed.

Create HintDb motion.

#[local] Hint Resolve same_motion_refl same_motion_emit same_motion_poke_data
  same_motion_set_drive : motion.

Lemma load_drive_motion wf m : same_motion m (load_drive wf m).
Proof.
  unfold load_drive.
  destruct (wf_drive wf) as [[s |] |]; auto with motion.
  destruct (String.eqb s "diff"); auto with motion.
  destruct (String.eqb s "omni"); auto with motion.
  cbv zeta. eapply same_motion_trans; [| apply same_motion_set_drive].
  apply same_motion_emit.
Qed.

Lemma load_odom_motion wf m : same_motion m (load_odom wf m).
Proof.
  unfold load_odom, PRINT_WARN. destruct (wf_odom wf); auto with motion.
Qed.

Lemma load_origin_motion wf m : same_motion m (load_origin wf m).
Proof.
  unfold load_origin.
  destruct (wf_localization_origin wf) as [[[ox oy] oa] |]; cbv zeta;
    auto with motion.
  repeat (eapply same_motion_trans; [| apply same_motion_poke_data]).
  apply same_motion_refl.
Qed.

Lemma load_odom_error_motion wf m : same_motion m (load_odom_error wf m).
Proof.
  unfold load_odom_error.
  destruct (wf_odom_error wf) as [[[ex ey] ea] |]; auto with motion.
Qed.

Lemma load_localization_motion wf m : same_motion m (load_localization wf m).
Proof.
  unfold load_localization, PRINT_ERR.
  destruct (wf_localization wf) as [[s |] |]; auto with motion.
  destruct (String.eqb s "gps"); auto with motion.
  destruct (String.eqb s "odom"); auto with motion.
Qed.

(** [position_load] moves nothing and leaves the velocity, the stall flag
    and the command alone. *)
Lemma position_load_frame wf m : same_motion m (position_load wf m).
Proof.
  unfold position_load, stg_model_property_refresh. cbv zeta.
  eapply same_motion_trans; [| apply same_motion_emit].
  eapply same_motion_trans; [| apply load_localization_motion].
  eapply same_motion_trans; [| apply load_odom_error_motion].
  eapply same_motion_trans; [| apply load_origin_motion].
  eapply same_motion_trans; [| apply load_odom_motion].
  apply load_drive_motion.
Qed.

Lemma position_load_localization_absent wf m :
  wf_localization wf = None ->
  localization (position_data (position_load wf m))
  = localization (position_data m).
Proof.
  intros Hl. unfold position_load. cbv zeta.
  set (m1 := load_drive wf m).
  set (m2 := load_odom wf m1).
  set (m3 := load_origin wf m2).
  set (m4 := load_odom_error wf m3).
  assert (H5 : load_localization wf m4 = m4).
  { unfold load_localization. rewrite Hl. reflexivity. }
  rewrite H5.
  change (position_data (stg_model_property_refresh "position_data" m4))
    with (position_data m4).
  destruct (load_odom_error_data wf m3) as (_ & _ & _ & H4 & _).
  destruct (load_origin_data wf m2) as (H3 & _).
  destruct (load_odom_frame wf m1) as (_ & _ & _ & _ & _ & _ & _ & H2).
  destruct (load_drive_frame wf m) as (_ & _ & _ & _ & _ & _ & H1).
  fold m1 in H1, H2. fold m2 in H2, H3. fold m3 in H3, H4. fold m4 in H4.
  rewrite H4, H3, H2, H1. reflexivity.
Qed.

(** ** Ground truth *)

(** With the localization "gps", a step sets the believed pose to the true
    pose expressed in the frame of the origin. *)
Lemma gps_pose_in_frame tpa m :
  localization (position_data m) = STG_POSITION_LOCALIZATION_GPS ->
  pose (position_data (position_update tpa m))
  = pose_in_frame (origin (position_data m))
                  (tpa (position_update_velocity m)).
Proof.
  intros Hl.
  assert (Hv : position_data (position_update_velocity m) = position_data m).
  { destruct (position_command_frame (set_velocity pose_zero m))
      as (_ & _ & _ & _ & _ & _ & _ & Hd).
    destruct (Z.eq_dec (subs m) 0) as [E | E].
    - rewrite (position_update_velocity_unsubscribed m E). reflexivity.
    - rewrite (position_update_velocity_subscribed m E). cbn. exact Hd. }
  unfold position_update, position_update_localization.
  cbn [position_data _model_update set_gpose gpose].
  rewrite Hv, Hl. cbn. unfold pose_in_frame.
  rewrite cos_neg, sin_neg. f_equal; ring.
Qed.

(** Loading the origin [(0, 0, 0)] into a model whose true pose is
    [(1, 0, PI/2)]. *)
Lemma load_origin_quarter_turn wf m0 :
  wf_localization_origin wf = Some (0, 0, 0) ->
  wf_localization wf = None ->
  gpose m0 = mk_pose 1 0 (PI / 2) ->
  subs m0 = 0%Z ->
  localization (position_data m0) = STG_POSITION_LOCALIZATION_GPS ->
  let m := position_load wf m0 in
  pose (position_data m) = mk_pose 0 (- (1)) (PI / 2)
  /\ pose_in_frame (origin (position_data m)) (gpose m) = mk_pose 1 0 (PI / 2)
  /\ pose_error (position_data m) = pose_zero
  /\ pose (position_data (position_update stay m)) = mk_pose 1 0 (PI / 2).
Proof.
  intros Hwo Hwl Hg0 Hs0 Hl0 m.
  destruct (position_load_data wf m0) as (_ & H).
  rewrite Hwo in H. destruct H as (Hp & He & Ho).
  destruct (position_load_frame wf m0) as (Hs & _ & Hg & _).
  fold m in Hp, He, Ho, Hg, Hs.
  rewrite Hg0 in Hp, Hg. cbn [pose_x pose_y pose_a] in Hp.
  replace (PI / 2 - 0) with (PI / 2) in Hp by ring.
  rewrite NORMALIZE_PI2, cos_PI2, sin_PI2 in Hp.
  assert (Hframe : pose_in_frame (origin (position_data m)) (gpose m)
                   = mk_pose 1 0 (PI / 2)).
  { rewrite Ho, Hg. unfold pose_in_frame. cbn [pose_x pose_y pose_a].
    replace (PI / 2 - 0) with (PI / 2) by ring.
    rewrite NORMALIZE_PI2, Ropp_0, cos_0, sin_0. f_equal; ring. }
  split; [| split; [| split]].
  - rewrite Hp. f_equal; ring.
  - exact Hframe.
  - exact He.
  - rewrite gps_pose_in_frame.
    + unfold stay.
      rewrite (position_update_velocity_unsubscribed m) by congruence.
      cbn [gpose set_velocity]. exact Hframe.
    + unfold m. rewrite position_load_localization_absent; assumption.
Qed.

(** C2, where the code parts from it: [position_load] turns the
    displacement by the heading of the model in the new frame, not by the
    heading of the origin.  A model whose true pose is [(1, 0, PI/2)],
    loaded with the origin [(0, 0, 0)], believes to be at [(0, -1, PI/2)],
    while its true pose in the frame of that origin is [(1, 0, PI/2)], which
    is also what the next step with the localization "gps" computes.  The
    pose error is zero after the load. *)
Theorem load_origin_pose_not_in_frame :
  let wf := mk_worldfile None false (Some (0, 0, 0)) None None in
  let g := mk_pose 1 0 (PI / 2) in
  let m := position_load wf (position_init (1/2) (1/2) (1/2) (new_model g)) in
  pose (position_data m) = mk_pose 0 (- (1)) (PI / 2)
  /\ pose_in_frame (origin (position_data m)) (gpose m) = mk_pose 1 0 (PI / 2)
  /\ pose_error (position_data m) = pose_zero
  /\ pose (position_data (position_update stay m)) = mk_pose 1 0 (PI / 2).
Proof.
  apply load_origin_quarter_turn; reflexivity.
Qed.

(** ** Odometry *)

Lemma position_update_velocity_frame m :
  let m' := position_update_velocity m in
  subs m' = subs m /\ sim_interval m' = sim_interval m /\
  gpose m' = gpose m /\ position_drive m' = position_drive m /\
  position_cmd m' = position_cmd m /\ position_data m' = position_data m.
Proof.
  destruct (position_command_frame (set_velocity pose_zero m))
    as (H1 & H2 & H3 & _ & H5 & _ & H7 & H8).
  destruct (Z.eq_dec (subs m) 0) as [E | E]; cbv zeta.
  - rewrite (position_update_velocity_unsubscribed m E). cbn. auto 10.
  - rewrite (position_update_velocity_subscribed m E). cbn. auto 10.
Qed.

(** What a step of odometry does to the believed pose. *)
Lemma odometry_step tpa m :
  localization (position_data m) = STG_POSITION_LOCALIZATION_ODOM ->
  let v := velocity (position_update tpa m) in
  let p := pose (position_data m) in
  let err := integration_error (position_data m) in
  let dt := IZR (sim_interval m) / 1000 in
  let a := NORMALIZE (pose_a p + (pose_a v * dt) * (1 + pose_a err)) in
  let dx := (pose_x v * dt) * (1 + pose_x err) in
  let dy := (pose_y v * dt) * (1 + pose_y err) in
  pose (position_data (position_update tpa m))
  = mk_pose (pose_x p + (dx * cos a + dy * sin a))
            (pose_y p - (dy * cos a - dx * sin a))
            a.
Proof.
  intros Hl. cbv zeta.
  rewrite velocity_position_update.
  destruct (position_update_velocity_frame m) as (_ & Hi & _ & _ & _ & Hd).
  unfold position_update, position_update_localization.
  cbn [position_data _model_update set_gpose velocity sim_interval].
  rewrite Hd, Hl, Hi. reflexivity.
Qed.

(** Without lateral velocity the step is the one of the spec: the
    displacement turned by the updated heading. *)
Lemma odometry_step_no_lateral tpa m :
  localization (position_data m) = STG_POSITION_LOCALIZATION_ODOM ->
  pose_y (velocity (position_update tpa m)) = 0 ->
  pose (position_data (position_update tpa m))
  = odometry_by_rotation (IZR (sim_interval m) / 1000)
                         (integration_error (position_data m))
                         (velocity (position_update tpa m))
                         (pose (position_data m)).
Proof.
  intros Hl Hy. rewrite (odometry_step tpa m Hl).
  unfold odometry_by_rotation. rewrite Hy. f_equal; ring.
Qed.

(** An omnidirectional model that is told to move sideways at [(0, 1, 0)]
    for a second. *)
Lemma odometry_sideways tpa m :
  subs m <> 0%Z ->
  position_cmd m = mk_cmd 0 1 0 STG_POSITION_CONTROL_VELOCITY ->
  position_drive m = STG_POSITION_DRIVE_OMNI ->
  localization (position_data m) = STG_POSITION_LOCALIZATION_ODOM ->
  integration_error (position_data m) = pose_zero ->
  pose (position_data m) = pose_zero ->
  sim_interval m = 1000%Z ->
  velocity (position_update tpa m) = mk_pose 0 1 0
  /\ pose (position_data (position_update tpa m)) = mk_pose 0 (- (1)) 0
  /\ odometry_by_rotation (IZR (sim_interval m) / 1000)
                          (integration_error (position_data m))
                          (mk_pose 0 1 0) (pose (position_data m))
     = mk_pose 0 1 0.
Proof.
  intros Hs Hc Hd Hl He Hp Hi.
  assert (Hv : velocity (position_update tpa m) = mk_pose 0 1 0).
  { rewrite (velocity_control_omni tpa m Hs); [| rewrite Hc | exact Hd].
    - rewrite Hc. reflexivity.
    - reflexivity. }
  assert (Ha : NORMALIZE (0 + 0 * (1000 / 1000) * (1 + 0)) = 0).
  { replace (0 + 0 * (1000 / 1000) * (1 + 0)) with 0 by field.
    apply NORMALIZE_0. }
  split; [exact Hv | split].
  - rewrite (odometry_step tpa m Hl), Hv, He, Hp, Hi.
    cbn [pose_x pose_y pose_a pose_zero].
    rewrite Ha, cos_0, sin_0. f_equal; field.
  - unfold odometry_by_rotation. rewrite He, Hp, Hi.
    cbn [pose_x pose_y pose_a pose_zero].
    rewrite Ha, cos_0, sin_0. f_equal; field.
Qed.

(** C5, where the code parts from it: the lateral part of the displacement
    enters the position with the wrong sign.  An omnidirectional model at
    the believed pose [(0,0,0)], without integration error, moving at
    [(0, 1, 0)] for a step of one second, believes to be at [(0, -1, 0)]
    afterwards; the displacement turned by the updated heading leads to
    [(0, 1, 0)]. *)
Theorem odometry_lateral_motion_mirrored tpa :
  let m :=
    a_model 1 1000 pose_zero STG_POSITION_DRIVE_OMNI
            (mk_cmd 0 1 0 STG_POSITION_CONTROL_VELOCITY)
            STG_POSITION_LOCALIZATION_ODOM pose_zero pose_zero in
  velocity (position_update tpa m) = mk_pose 0 1 0
  /\ pose (position_data (position_update tpa m)) = mk_pose 0 (- (1)) 0
  /\ odometry_by_rotation (IZR (sim_interval m) / 1000)
                          (integration_error (position_data m))
                          (mk_pose 0 1 0) (pose (position_data m))
     = mk_pose 0 1 0.
Proof.
  apply odometry_sideways; try reflexivity.
  simpl. lia.
Qed.

(** *** Driving straight ahead *)

Section Straight.

Variable true_pose_after : stg_model_t -> stg_pose_t.
Variable vx : R.

Lemma straight_velocity m :
  drives_straight vx m ->
  velocity (position_update true_pose_after m) = mk_pose vx 0 0.
Proof.
  intros (Hs & Hc & [Hd | Hd] & _).
  - rewrite velocity_control_differential; auto; rewrite Hc; reflexivity.
  - rewrite velocity_control_omni; auto; rewrite Hc; reflexivity.
Qed.

Lemma straight_step m x :
  drives_straight vx m ->
  pose (position_data m) = mk_pose x 0 0 ->
  pose (position_data (position_update true_pose_after m))
  = mk_pose (x + vx * (IZR (sim_interval m) / 1000)) 0 0.
Proof.
  intros Hst Hp.
  pose proof (straight_velocity m Hst) as Hv.
  destruct Hst as (Hs & Hc & Hd & Hl & He).
  rewrite (odometry_step true_pose_after m Hl), Hv, He, Hp.
  cbn [pose_x pose_y pose_a pose_zero].
  set (dt := IZR (sim_interval m) / 1000).
  replace (0 + 0 * dt * (1 + 0)) with 0 by ring.
  rewrite NORMALIZE_0, cos_0, sin_0. f_equal; ring.
Qed.

Lemma straight_kept m :
  drives_straight vx m ->
  drives_straight vx (position_update true_pose_after m)
  /\ sim_interval (position_update true_pose_after m) = sim_interval m.
Proof.
  intros (Hs & Hc & Hd & Hl & He).
  destruct (position_update_frame true_pose_after m) as (Fs & Fi & Fd & Fc).
  destruct (position_update_data_frame true_pose_after m)
    as (_ & _ & Fl & Fe).
  unfold drives_straight. rewrite Fs, Fc, Fd, Fl, Fe. auto 10.
Qed.

Lemma straight_ticks n : forall m x,
  drives_straight vx m ->
  pose (position_data m) = mk_pose x 0 0 ->
  pose (position_data (ticks true_pose_after n m))
  = mk_pose (x + INR n * vx * (IZR (sim_interval m) / 1000)) 0 0
  /\ ((0 < n)%nat ->
      velocity (ticks true_pose_after n m) = mk_pose vx 0 0).
Proof.
  induction n as [| n IH]; intros m x Hst Hp.
  - cbn [ticks]. split; [| lia].
    rewrite Hp. f_equal. simpl INR. ring.
  - cbn [ticks].
    destruct (straight_kept m Hst) as (Hst' & Hi).
    destruct (IH _ _ Hst' (straight_step m x Hst Hp)) as (IHp & IHv).
    split.
    + rewrite IHp, Hi, S_INR. f_equal. ring.
    + intros _. destruct n as [| k].
      * cbn [ticks]. now apply straight_velocity.
      * apply IHv. lia.
Qed.

End Straight.

(** C9: by odometry without integration error, from the believed pose
    [(0,0,0)], [n] steps at the constant velocity [(vx, 0, 0)] lead to the
    believed pose [(n * vx * dt, 0, 0)], where [dt] is the step of the
    world in seconds. *)
Theorem odometry_straight_line tpa (n : nat) (vx : R) (m : stg_model_t) :
  subs m <> 0%Z ->
  position_cmd m = mk_cmd vx 0 0 STG_POSITION_CONTROL_VELOCITY ->
  (position_drive m = STG_POSITION_DRIVE_DIFFERENTIAL \/
   position_drive m = STG_POSITION_DRIVE_OMNI) ->
  localization (position_data m) = STG_POSITION_LOCALIZATION_ODOM ->
  integration_error (position_data m) = pose_zero ->
  pose (position_data m) = pose_zero ->
  pose (position_data (ticks tpa n m))
  = mk_pose (INR n * vx * (IZR (sim_interval m) / 1000)) 0 0
  /\ ((0 < n)%nat -> velocity (ticks tpa n m) = mk_pose vx 0 0).
Proof.
  intros Hs Hc Hd Hl He Hp.
  destruct (straight_ticks tpa vx n m 0) as (H1 & H2).
  - repeat split; assumption.
  - exact Hp.
  - split; [| exact H2].
    rewrite H1. f_equal. ring.
Qed.

Lemma odometry_straight_line_witness :
  pose
    (position_data
       (ticks advance 3
          (a_model 1 100 pose_zero STG_POSITION_DRIVE_DIFFERENTIAL
                   (mk_cmd 2 0 0 STG_POSITION_CONTROL_VELOCITY)
                   STG_POSITION_LOCALIZATION_ODOM pose_zero pose_zero)))
  = mk_pose (INR 3 * 2 * (IZR 100 / 1000)) 0 0.
Proof.
  apply (odometry_straight_line advance 3 2
           (a_model 1 100 pose_zero STG_POSITION_DRIVE_DIFFERENTIAL
                    (mk_cmd 2 0 0 STG_POSITION_CONTROL_VELOCITY)
                    STG_POSITION_LOCALIZATION_ODOM pose_zero pose_zero)).
  - simpl. lia.
  - reflexivity.
  - left. reflexivity.
  - reflexivity.
  - reflexivity.
  - reflexivity.
Defined.

(** ** The believed heading *)

Lemma heading_after_update tpa m :
  heading_normalized m -> heading_normalized (position_update tpa m).
Proof.
  unfold heading_normalized. intros H.
  destruct (position_update_velocity_frame m) as (_ & _ & _ & _ & _ & Hd).
  unfold position_update, position_update_localization.
  cbn [position_data _model_update set_gpose].
  rewrite Hd.
  destruct (localization (position_data m)); cbn.
  - apply NORMALIZE_bound.
  - apply NORMALIZE_bound.
  - rewrite Hd. exact H.
Qed.

Lemma heading_after_load wf m :
  heading_normalized m -> heading_normalized (position_load wf m).
Proof.
  unfold heading_normalized. intros H.
  destruct (position_load_data wf m) as (_ & Hp).
  destruct (wf_localization_origin wf) as [[[ox oy] oa] |].
  - destruct Hp as (Hp & _). rewrite Hp. cbn. apply NORMALIZE_bound.
  - destruct Hp as (Hp & _). rewrite Hp. exact H.
Qed.

Lemma heading_after_init u1 u2 u3 m :
  heading_normalized (position_init u1 u2 u3 m).
Proof.
  unfold heading_normalized. cbn. pose proof PI_RGT_0. lra.
Qed.

Lemma heading_after_operation tpa m o :
  heading_normalized m -> heading_normalized (apply_operation tpa m o).
Proof.
  intros H. destruct o; cbn [apply_operation].
  - now apply heading_after_update.
  - now apply heading_after_load.
  - exact H.
  - exact H.
  - exact H.
  - exact H.
Qed.

Lemma heading_after_run tpa ops : forall m,
  heading_normalized m -> heading_normalized (run tpa ops m).
Proof.
  induction ops as [| o ops IH]; intros m H; cbn [run fold_left].
  - exact H.
  - apply IH. now apply heading_after_operation.
Qed.

(** C7: whatever is done to a model after it is created (steps, loads of
    worldfiles, commands, subscriptions, start and stop, in any order and
    under any drive and localization mode), the believed heading lies in
    [(-PI, PI]]. *)
Theorem believed_heading_in_range tpa (ops : list operation)
        (u1 u2 u3 : R) (m0 : stg_model_t) :
  - PI < pose_a (pose (position_data
                         (run tpa ops (position_init u1 u2 u3 m0)))) <= PI.
Proof.
  apply (heading_after_run tpa ops). apply heading_after_init.
Qed.

(** ** The stall flag and the notifications of a step *)

Lemma skipn_length_app {A : Type} (l l' : list A) :
  skipn (List.length l) (l ++ l') = l'.
Proof. induction l as [| x l IH]; [reflexivity | exact IH]. Qed.

Lemma events_since_app m m' evs :
  trace m' = trace m ++ evs -> events_since m m' = evs.
Proof. intros H. unfold events_since. rewrite H. apply skipn_length_app. Qed.

(** [position_command] reports at most an error. *)
Lemma position_command_trace m :
  exists evs, trace (position_command m) = trace m ++ evs
              /\ forall e, In e evs -> exists msg, e = EvErr msg.
Proof.
  destruct m as [n i g v b drive st [cx cy ca mode] d tr].
  unfold position_command. cbn.
  destruct mode, drive; cbn;
    first [ exists []; split; [now rewrite app_nil_r | intros e []]
          | eexists [_]; split;
            [reflexivity | intros e [<- | []]; eexists; reflexivity] ].
Qed.

(** The localization reports at most an error and refreshes the position
    data; the stall flag and the velocity are left alone. *)
Lemma position_update_localization_trace m :
  position_stall (position_update_localization m) = position_stall m
  /\ velocity (position_update_localization m) = velocity m
  /\ exists evs,
      trace (position_update_localization m) = trace m ++ evs
      /\ forall e, In e evs ->
                   (exists msg, e = EvErr msg) \/ e = EvRefresh "position_data".
Proof.
  unfold position_update_localization.
  destruct (localization (position_data m)); cbn.
  - split; [reflexivity | split; [reflexivity |]].
    eexists [_]; split; [reflexivity |]. intros e [<- | []]. now right.
  - split; [reflexivity | split; [reflexivity |]].
    eexists [_]; split; [reflexivity |]. intros e [<- | []]. now right.
  - split; [reflexivity | split; [reflexivity |]].
    eexists [_; _]; split; [now rewrite <- app_assoc |].
    intros e [<- | [<- | []]]; [left; eexists; reflexivity | now right].
Qed.

(** C3 as it stands fails: a step of a model without subscribers leaves a
    raised stall flag raised and signals nothing on the velocity. *)
Lemma stall_reset_unconditional_counterexample :
  ~ (forall m : stg_model_t,
        position_stall (position_update stay m) = 0%Z
        /\ In (EvRefresh "velocity")
              (events_since m (position_update stay m))).
Proof.
  intros H.
  specialize
    (H (set_position_stall 1
          (a_model 0 100 pose_zero STG_POSITION_DRIVE_DIFFERENTIAL cmd_zero
                   STG_POSITION_LOCALIZATION_GPS pose_zero pose_zero))).
  destruct H as (H & _).
  unfold position_update in H.
  rewrite (proj1 (position_update_localization_trace _)) in H.
  cbn in H. discriminate H.
Qed.

(** C3, amended: in a step of a model that has a subscriber, whatever the
    command mode, the stall flag is reset to [0] and the velocity property
    is refreshed; in a step of a model without subscribers the velocity is
    set to zero, the stall flag keeps its value and neither the stall flag
    is set nor the velocity refreshed. *)
Theorem stall_reset_when_subscribed tpa m :
  let m' := position_update tpa m in
  (subs m <> 0%Z ->
   position_stall (position_update_velocity m) = 0%Z
   /\ position_stall m' = 0%Z
   /\ In (EvSet "position_stall") (events_since m m')
   /\ In (EvRefresh "velocity") (events_since m m'))
  /\ (subs m = 0%Z ->
      position_stall m' = position_stall m
      /\ velocity m' = pose_zero
      /\ ~ In (EvSet "position_stall") (events_since m m')
      /\ ~ In (EvRefresh "velocity") (events_since m m')).
Proof.
  cbv zeta. unfold position_update.
  set (m1 := _model_update tpa (position_update_velocity m)).
  destruct (position_update_localization_trace m1) as (Hst & Hv & evl & Ht & Hl).
  rewrite Hst, Hv.
  split; intros Hs.
  - destruct (position_command_trace (set_velocity pose_zero m))
      as (evc & Hc & _).
    assert (Htr : trace (position_update_localization m1)
                  = trace m ++ (evc ++ [EvSet "position_stall";
                                        EvRefresh "velocity"] ++ evl)).
    { rewrite Ht. unfold m1.
      rewrite (position_update_velocity_subscribed m Hs).
      cbn [trace _model_update set_gpose stg_model_property_refresh
           stg_model_set_property emit set_position_stall].
      rewrite Hc. cbn [trace set_velocity].
      rewrite <- !app_assoc. reflexivity. }
    rewrite (events_since_app _ _ _ Htr).
    unfold m1. rewrite (position_update_velocity_subscribed m Hs).
    repeat split; try reflexivity.
    + apply in_or_app. right. apply in_or_app. left. now left.
    + apply in_or_app. right. apply in_or_app. left. right. now left.
  - assert (Htr : trace (position_update_localization m1) = trace m ++ evl).
    { rewrite Ht. unfold m1.
      rewrite (position_update_velocity_unsubscribed m Hs). reflexivity. }
    rewrite (events_since_app _ _ _ Htr).
    unfold m1. rewrite (position_update_velocity_unsubscribed m Hs).
    repeat split; try reflexivity.
    + intros Hin. destruct (Hl _ Hin) as [[msg E] | E]; discriminate E.
    + intros Hin. destruct (Hl _ Hin) as [[msg E] | E]; discriminate E.
Qed.

Lemma stall_reset_when_subscribed_witness :
  position_stall
    (position_update advance
       (set_position_stall 1
          (a_model 1 100 pose_zero STG_POSITION_DRIVE_DIFFERENTIAL cmd_zero
                   STG_POSITION_LOCALIZATION_GPS pose_zero pose_zero)))
  = 0%Z
  /\ position_stall
       (position_update advance
          (set_position_stall 1
             (a_model 0 100 pose_zero STG_POSITION_DRIVE_DIFFERENTIAL cmd_zero
                      STG_POSITION_LOCALIZATION_GPS pose_zero pose_zero)))
     = 1%Z.
Proof.
  split.
  - apply (stall_reset_when_subscribed advance
             (set_position_stall 1
                (a_model 1 100 pose_zero STG_POSITION_DRIVE_DIFFERENTIAL
                         cmd_zero STG_POSITION_LOCALIZATION_GPS pose_zero
                         pose_zero))).
    simpl. lia.
  - apply (stall_reset_when_subscribed advance
             (set_position_stall 1
                (a_model 0 100 pose_zero STG_POSITION_DRIVE_DIFFERENTIAL
                         cmd_zero STG_POSITION_LOCALIZATION_GPS pose_zero
                         pose_zero))).
    reflexivity.
Defined.

(** ** The integration error *)

(** What leaves the integration error alone: a step, the start, the stop,
    and the load of a worldfile without the entry "odom_error". *)
Lemma integration_error_kept tpa wf m :
  integration_error (position_data (position_update tpa m))
  = integration_error (position_data m)
  /\ integration_error (position_data (position_startup m))
     = integration_error (position_data m)
  /\ integration_error (position_data (position_shutdown m))
     = integration_error (position_data m)
  /\ (wf_odom_error wf = None ->
      integration_error (position_data (position_load wf m))
      = integration_error (position_data m)).
Proof.
  split; [apply (position_update_data_frame tpa m) |].
  split; [reflexivity |]. split; [reflexivity |].
  intros Hw. rewrite (proj1 (position_load_data wf m)), Hw. reflexivity.
Qed.

(** The integration error that [position_init] draws: on each axis
    [u * E - E / 2] for a draw [u] of [[0, 1)], within [[-E/2, E/2)]. *)
Lemma integration_error_drawn (u1 u2 u3 : R) (m0 : stg_model_t) :
  0 <= u1 < 1 -> 0 <= u2 < 1 -> 0 <= u3 < 1 ->
  let e := integration_error (position_data (position_init u1 u2 u3 m0)) in
  e = mk_pose (u1 * 0.03 - 0.03 / 2) (u2 * 0.03 - 0.03 / 2)
              (u3 * 0.05 - 0.05 / 2)
  /\ (- (0.03 / 2) <= pose_x e < 0.03 / 2)
  /\ (- (0.03 / 2) <= pose_y e < 0.03 / 2)
  /\ (- (0.05 / 2) <= pose_a e < 0.05 / 2).
Proof.
  intros H1 H2 H3 e.
  assert (He : e = mk_pose (u1 * 0.03 - 0.03 / 2) (u2 * 0.03 - 0.03 / 2)
                           (u3 * 0.05 - 0.05 / 2)) by reflexivity.
  split; [exact He |].
  rewrite He. cbn [pose_x pose_y pose_a]. lra.
Qed.

(** Loading the entry "odom_error" with the values [(e, e, e)] into a
    model. *)
Lemma load_odom_error_values wf m (e : R) :
  wf_odom_error wf = Some (e, e, e) ->
  integration_error (position_data (position_load wf m)) = mk_pose e e e.
Proof.
  intros Hw. rewrite (proj1 (position_load_data wf m)), Hw. reflexivity.
Qed.

(** C4, where the code parts from it: the integration error does not stay
    what [position_init] drew, and does not stay within half the maximum.
    A model created with the draws [1/2], [1/4] and [3/4] has the
    coefficients [(0, -0.0075, 0.0125)]; loading a worldfile whose entry
    "odom_error" reads [(0.5, 0.5, 0.5)] leaves the coefficients
    [(0.5, 0.5, 0.5)]: the maxima themselves, which are neither the
    coefficients drawn at creation nor within [-0.5/2 .. 0.5/2]. *)
Theorem odom_error_overwrites_integration_error :
  let m := position_init (1/2) (1/4) (3/4) (new_model pose_zero) in
  let wf := mk_worldfile None false None (Some (0.5, 0.5, 0.5)) None in
  integration_error (position_data m)
  = mk_pose ((1/2) * 0.03 - 0.03 / 2) ((1/4) * 0.03 - 0.03 / 2)
            ((3/4) * 0.05 - 0.05 / 2)
  /\ integration_error (position_data (position_load wf m))
     = mk_pose 0.5 0.5 0.5
  /\ integration_error (position_data (position_load wf m))
     <> integration_error (position_data m)
  /\ ~ (- (0.5 / 2)
        <= pose_x (integration_error (position_data (position_load wf m)))
        <= 0.5 / 2).
Proof.
  cbv zeta.
  rewrite (load_odom_error_values
             (mk_worldfile None false None (Some (0.5, 0.5, 0.5)) None)
             (position_init (1/2) (1/4) (3/4) (new_model pose_zero))
             0.5 eq_refl).
  split; [reflexivity |]. split; [reflexivity |]. split.
  - intros E. apply (f_equal pose_x) in E.
    cbn [pose_x position_init stg_model_set_property emit set_position_data
         position_data integration_error] in E.
    unfold STG_POSITION_INTEGRATION_ERROR_MAX_X in E. lra.
  - cbn [pose_x]. lra.
Qed.

(** ** Entries of the worldfile that are not understood *)

Lemma trace_grows_refl m : trace_grows m m.
Proof. exists []. now rewrite app_nil_r. Qed.

Lemma trace_grows_trans m1 m2 m3 :
  trace_grows m1 m2 -> trace_grows m2 m3 -> trace_grows m1 m3.
Proof.
  intros (e1 & H1) (e2 & H2). exists (e1 ++ e2).
  rewrite H2, H1. now rewrite app_assoc.
Qed.

Lemma trace_grows_emit e m : trace_grows m (emit e m).
Proof. exists [e]. reflexivity. Qed.

Lemma trace_grows_poke_data f m : trace_grows m (poke_data f m).
Proof. exists []. cbn. now rewrite app_nil_r. Qed.

Create HintDb grows.

#[local] Hint Resolve trace_grows_refl trace_grows_emit trace_grows_poke_data
  : grows.

Lemma load_odom_grows wf m :
  trace_grows m (load_odom wf m)
  /\ position_drive (load_odom wf m) = position_drive m.
Proof.
  unfold load_odom, PRINT_WARN. destruct (wf_odom wf); auto with grows.
Qed.

Lemma load_origin_grows wf m :
  trace_grows m (load_origin wf m)
  /\ position_drive (load_origin wf m) = position_drive m.
Proof.
  unfold load_origin.
  destruct (wf_localization_origin wf) as [[[ox oy] oa] |]; cbv zeta;
    (split; [exists []; cbn; now rewrite app_nil_r | reflexivity]).
Qed.

Lemma load_odom_error_grows wf m :
  trace_grows m (load_odom_error wf m)
  /\ position_drive (load_odom_error wf m) = position_drive m.
Proof.
  unfold load_odom_error.
  destruct (wf_odom_error wf) as [[[ex ey] ea] |]; auto with grows.
Qed.

Lemma load_localization_grows wf m :
  trace_grows m (load_localization wf m)
  /\ position_drive (load_localization wf m) = position_drive m.
Proof.
  unfold load_localization, PRINT_ERR.
  destruct (wf_localization wf) as [[s |] |]; auto with grows.
  destruct (String.eqb s "gps"); auto with grows.
  destruct (String.eqb s "odom"); auto with grows.
Qed.

(** What [position_load] does after the entry "drive": it adds to the
    trace and leaves the steering mode alone. *)
Lemma load_after_drive_grows wf m :
  let m' :=
    load_localization wf
      (load_odom_error wf (load_origin wf (load_odom wf m))) in
  trace_grows m m' /\ position_drive m' = position_drive m.
Proof.
  cbv zeta.
  set (m2 := load_odom wf m).
  set (m3 := load_origin wf m2).
  set (m4 := load_odom_error wf m3).
  set (m5 := load_localization wf m4).
  destruct (load_odom_grows wf m) as (G2 & D2).
  destruct (load_origin_grows wf m2) as (G3 & D3).
  destruct (load_odom_error_grows wf m3) as (G4 & D4).
  destruct (load_localization_grows wf m4) as (G5 & D5).
  fold m2 in G2, D2. fold m3 in G3, D3. fold m4 in G4, D4. fold m5 in G5, D5.
  split.
  - apply trace_grows_trans with m4; [| exact G5].
    apply trace_grows_trans with m3; [| exact G4].
    apply trace_grows_trans with m2; [exact G2 | exact G3].
  - rewrite D5, D4, D3, D2. reflexivity.
Qed.

Lemma load_drive_grows wf m : trace_grows m (load_drive wf m).
Proof.
  unfold load_drive.
  destruct (wf_drive wf) as [[s |] |]; auto with grows.
  destruct (String.eqb s "diff"); [eexists [_]; reflexivity |].
  destruct (String.eqb s "omni"); [eexists [_]; reflexivity |].
  eexists [_; _]. cbn. now rewrite <- app_assoc.
Qed.

(** What [position_load] does before the entry "localization": it adds to
    the trace and leaves the localization alone. *)
Lemma load_before_localization wf m :
  let m' := load_odom_error wf (load_origin wf (load_odom wf (load_drive wf m))) in
  trace_grows m m'
  /\ localization (position_data m') = localization (position_data m).
Proof.
  cbv zeta.
  set (m1 := load_drive wf m).
  set (m2 := load_odom wf m1).
  set (m3 := load_origin wf m2).
  set (m4 := load_odom_error wf m3).
  split.
  - apply trace_grows_trans with m3; [| apply load_odom_error_grows].
    apply trace_grows_trans with m2; [| apply load_origin_grows].
    apply trace_grows_trans with m1; [| apply load_odom_grows].
    apply load_drive_grows.
  - destruct (load_odom_error_data wf m3) as (_ & _ & _ & H4 & _).
    destruct (load_origin_data wf m2) as (H3 & _).
    destruct (load_odom_frame wf m1) as (_ & _ & _ & _ & _ & _ & _ & H2).
    destruct (load_drive_frame wf m) as (_ & _ & _ & _ & _ & _ & H1).
    fold m1 in H1, H2. fold m2 in H2, H3. fold m3 in H3, H4. fold m4 in H4.
    rewrite H4, H3, H2, H1. reflexivity.
Qed.

(** The entries after "drive" read the position data and the true pose
    only. *)
Lemma load_after_drive_same_place wf m1 m2 :
  same_place m1 m2 ->
  position_data
    (load_localization wf
       (load_odom_error wf (load_origin wf (load_odom wf m1))))
  = position_data
      (load_localization wf
         (load_odom_error wf (load_origin wf (load_odom wf m2)))).
Proof.
  intros (Hd & Hg).
  assert (H2 : same_place (load_odom wf m1) (load_odom wf m2)).
  { unfold same_place, load_odom, PRINT_WARN.
    destruct (wf_odom wf); cbn; auto. }
  revert H2.
  generalize (load_odom wf m1), (load_odom wf m2). clear. intros a1 a2 (Hd & Hg).
  assert (H3 : same_place (load_origin wf a1) (load_origin wf a2)).
  { unfold same_place, load_origin.
    destruct (wf_localization_origin wf) as [[[ox oy] oa] |];
      cbn; rewrite Hd, Hg; auto. }
  revert H3.
  generalize (load_origin wf a1), (load_origin wf a2). clear. intros b1 b2 (Hd & Hg).
  assert (H4 : same_place (load_odom_error wf b1) (load_odom_error wf b2)).
  { unfold same_place, load_odom_error.
    destruct (wf_odom_error wf) as [[[ex ey] ea] |]; cbn; rewrite ?Hd; auto. }
  revert H4.
  generalize (load_odom_error wf b1), (load_odom_error wf b2). clear.
  intros c1 c2 (Hd & Hg).
  unfold load_localization, PRINT_ERR.
  destruct (wf_localization wf) as [[s |] |]; cbn; auto.
  destruct (String.eqb s "gps"); [cbn; now rewrite Hd |].
  destruct (String.eqb s "odom"); cbn; now rewrite Hd.
Qed.

(** The steering mode when the string is neither "diff" nor "omni". *)
Lemma load_drive_unrecognized wf m s :
  wf_drive wf = Some (Some s) ->
  s <> "diff"%string -> s <> "omni"%string ->
  load_drive wf m
  = stg_model_set_property set_position_drive "position_drive"
      (position_drive m)
      (PRINT_ERR ("invalid position drive mode specified: " ++ s) m).
Proof.
  intros Hw Hd Ho. unfold load_drive. rewrite Hw.
  apply String.eqb_neq in Hd, Ho. rewrite Hd, Ho. reflexivity.
Qed.

(** The localization when the string is neither "gps" nor "odom". *)
Lemma load_localization_unrecognized wf m s :
  wf_localization wf = Some (Some s) ->
  s <> "gps"%string -> s <> "odom"%string ->
  load_localization wf m
  = PRINT_ERR ("unrecognized localization mode " ++ s) m.
Proof.
  intros Hw Hg Ho. unfold load_localization. rewrite Hw.
  apply String.eqb_neq in Hg, Ho. rewrite Hg, Ho. reflexivity.
Qed.

(** C10 as it stands fails: the report of a steering mode that is not
    understood is an error, not a warning; no warning is among the events of
    the load. *)
Lemma load_unrecognized_warning_counterexample :
  ~ (forall (wf : worldfile) (m : stg_model_t) (s : string),
        wf_drive wf = Some (Some s) ->
        s <> "diff"%string -> s <> "omni"%string ->
        exists msg, In (EvWarn msg) (events_since m (position_load wf m))).
Proof.
  intros H.
  destruct
    (H (mk_worldfile (Some (Some "tank"%string)) false None None None)
       (a_model 0 100 pose_zero STG_POSITION_DRIVE_OMNI cmd_zero
                STG_POSITION_LOCALIZATION_ODOM pose_zero pose_zero)
       "tank"%string eq_refl)
    as (msg & Hin); try discriminate.
  assert (Hev : events_since
                  (a_model 0 100 pose_zero STG_POSITION_DRIVE_OMNI cmd_zero
                           STG_POSITION_LOCALIZATION_ODOM pose_zero pose_zero)
                  (position_load
                     (mk_worldfile (Some (Some "tank"%string)) false None
                                   None None)
                     (a_model 0 100 pose_zero STG_POSITION_DRIVE_OMNI cmd_zero
                              STG_POSITION_LOCALIZATION_ODOM pose_zero
                              pose_zero))
                = [EvErr "invalid position drive mode specified: tank";
                   EvSet "position_drive"; EvRefresh "position_data"])
    by reflexivity.
  rewrite Hev in Hin.
  destruct Hin as [E | [E | [E | []]]]; discriminate E.
Qed.

(** C10, amended: when the worldfile names a steering mode that is neither
    "diff" nor "omni", [position_load] reports it as an error, keeps the
    steering mode that the model had, and loads the other entries as if
    "drive" were absent, up to the final refresh of the position data; when
    the worldfile names a localization that is neither "gps" nor "odom",
    [position_load] reports it as an error, keeps the localization that the
    model had, and ends as if "localization" were absent. *)
Theorem load_unrecognized_keeps_previous wf m s :
  (wf_drive wf = Some (Some s) ->
   s <> "diff"%string -> s <> "omni"%string ->
   let m' := position_load wf m in
   position_drive m' = position_drive m
   /\ In (EvErr ("invalid position drive mode specified: " ++ s))
         (events_since m m')
   /\ In (EvRefresh "position_data") (events_since m m')
   /\ position_data m'
      = position_data (position_load (wf_without_drive wf) m))
  /\ (wf_localization wf = Some (Some s) ->
      s <> "gps"%string -> s <> "odom"%string ->
      let m' := position_load wf m in
      localization (position_data m') = localization (position_data m)
      /\ In (EvErr ("unrecognized localization mode " ++ s))
            (events_since m m')
      /\ In (EvRefresh "position_data") (events_since m m')
      /\ position_data m'
         = position_data (position_load (wf_without_localization wf) m)
      /\ position_drive m'
         = position_drive (position_load (wf_without_localization wf) m)).
Proof.
  split.
  - intros Hw Hd Ho. cbv zeta.
    set (msg := ("invalid position drive mode specified: " ++ s)%string).
    set (m1 := stg_model_set_property set_position_drive "position_drive"
                 (position_drive m) (PRINT_ERR msg m)).
    set (m5 := load_localization wf
                 (load_odom_error wf (load_origin wf (load_odom wf m1)))).
    assert (Hload : position_load wf m
                    = stg_model_property_refresh "position_data" m5).
    { unfold position_load. cbv zeta.
      rewrite (load_drive_unrecognized wf m s Hw Hd Ho). reflexivity. }
    rewrite Hload.
    destruct (load_after_drive_grows wf m1) as ((evs & Ht) & Hdr).
    fold m5 in Ht, Hdr.
    assert (Htr : trace (stg_model_property_refresh "position_data" m5)
                  = trace m ++ ([EvErr msg; EvSet "position_drive"] ++ evs
                                ++ [EvRefresh "position_data"])).
    { cbn [trace stg_model_property_refresh emit]. rewrite Ht.
      cbn [m1 trace stg_model_set_property emit set_position_drive PRINT_ERR].
      rewrite <- !app_assoc. reflexivity. }
    rewrite (events_since_app _ _ _ Htr).
    split; [| split; [| split]].
    + cbn [position_drive stg_model_property_refresh emit]. rewrite Hdr.
      reflexivity.
    + apply in_or_app. left. now left.
    + apply in_or_app. right. apply in_or_app. right. now left.
    + change (position_load (wf_without_drive wf) m)
        with (stg_model_property_refresh "position_data"
                (load_localization wf
                   (load_odom_error wf (load_origin wf (load_odom wf m))))).
      cbn [position_data stg_model_property_refresh emit].
      apply load_after_drive_same_place. split; reflexivity.
  - intros Hw Hg Ho. cbv zeta.
    set (msg := ("unrecognized localization mode " ++ s)%string).
    set (m4 := load_odom_error wf
                 (load_origin wf (load_odom wf (load_drive wf m)))).
    assert (Hload : position_load wf m
                    = stg_model_property_refresh "position_data"
                        (PRINT_ERR msg m4)).
    { unfold position_load. cbv zeta.
      rewrite (load_localization_unrecognized wf _ s Hw Hg Ho). reflexivity. }
    assert (Hwithout : position_load (wf_without_localization wf) m
                       = stg_model_property_refresh "position_data" m4)
      by reflexivity.
    rewrite Hload, Hwithout.
    destruct (load_before_localization wf m) as ((evs & Ht) & Hl).
    fold m4 in Ht, Hl.
    assert (Htr : trace (stg_model_property_refresh "position_data"
                           (PRINT_ERR msg m4))
                  = trace m ++ (evs ++ [EvErr msg;
                                        EvRefresh "position_data"])).
    { cbn [trace stg_model_property_refresh emit PRINT_ERR]. rewrite Ht.
      rewrite <- !app_assoc. reflexivity. }
    rewrite (events_since_app _ _ _ Htr).
    split; [| split; [| split; [| split]]].
    + cbn [position_data stg_model_property_refresh emit PRINT_ERR].
      exact Hl.
    + apply in_or_app. right. now left.
    + apply in_or_app. right. right. now left.
    + reflexivity.
    + reflexivity.
Qed.

Lemma load_unrecognized_keeps_previous_witness :
  position_drive
    (position_load
       (mk_worldfile (Some (Some "tank"%string)) false None None None)
       (a_model 0 100 pose_zero STG_POSITION_DRIVE_OMNI cmd_zero
                STG_POSITION_LOCALIZATION_ODOM pose_zero pose_zero))
  = STG_POSITION_DRIVE_OMNI
  /\ localization
       (position_data
          (position_load
             (mk_worldfile None false None None (Some (Some "radio"%string)))
             (a_model 0 100 pose_zero STG_POSITION_DRIVE_OMNI cmd_zero
                      STG_POSITION_LOCALIZATION_ODOM pose_zero pose_zero)))
     = STG_POSITION_LOCALIZATION_ODOM.
Proof.
  split.
  - apply (proj1
             (load_unrecognized_keeps_previous
                (mk_worldfile (Some (Some "tank"%string)) false None None None)
                (a_model 0 100 pose_zero STG_POSITION_DRIVE_OMNI cmd_zero
                         STG_POSITION_LOCALIZATION_ODOM pose_zero pose_zero)
                "tank"%string)).
    + reflexivity.
    + discriminate.
    + discriminate.
  - apply (proj2
             (load_unrecognized_keeps_previous
                (mk_worldfile None false None None
                              (Some (Some "radio"%string)))
                (a_model 0 100 pose_zero STG_POSITION_DRIVE_OMNI cmd_zero
                         STG_POSITION_LOCALIZATION_ODOM pose_zero pose_zero)
                "radio"%string)).
    + reflexivity.
    + discriminate.
    + discriminate.
Defined.

(** * Further properties of the position model *)

(** ** Position control *)

Lemma hypot_nonneg (u v : R) : 0 <= hypot u v.
Proof. unfold hypot. apply sqrt_pos. Qed.

(** The forward speed that the differential controller computes. *)
Lemma position_control_differential_x (ex ey ea : R) (d : stg_position_data_t) :
  pose_x (position_control_differential ex ey ea d)
  = if (Rltb (fabs ex) close_enough && Rltb (fabs ey) close_enough)%bool
    then 0
    else if Rltb (fabs (NORMALIZE (atan2 ey ex - pose_a (pose d)))) (M_PI / 16)
         then MIN (hypot ey ex) max_speed_x
         else 0.
Proof.
  unfold position_control_differential.
  destruct (Rltb (fabs ex) close_enough && Rltb (fabs ey) close_enough)%bool.
  - reflexivity.
  - destruct (Rltb _ (M_PI / 16)); reflexivity.
Qed.

(** X1: under position control of a differential drive, with a subscriber,
    the lateral velocity is zero and the forward speed lies between zero
    and [max_speed_x]; the model does not drive forward when it is within
    [close_enough] of the target on both axes, nor when its heading is
    [M_PI / 16] or more off the bearing of the target; otherwise it drives
    at the distance to the target, cut off at [max_speed_x]. *)
Theorem differential_forward_speed tpa m :
  subs m <> 0%Z ->
  cmd_mode (position_cmd m) = STG_POSITION_CONTROL_POSITION ->
  position_drive m = STG_POSITION_DRIVE_DIFFERENTIAL ->
  let p := pose (position_data m) in
  let ex := cmd_x (position_cmd m) - pose_x p in
  let ey := cmd_y (position_cmd m) - pose_y p in
  let bearing_error := NORMALIZE (atan2 ey ex - pose_a p) in
  let v := velocity (position_update tpa m) in
  pose_y v = 0
  /\ 0 <= pose_x v <= max_speed_x
  /\ (fabs ex < close_enough -> fabs ey < close_enough -> pose_x v = 0)
  /\ (~ (fabs ex < close_enough /\ fabs ey < close_enough) ->
      (fabs bearing_error < M_PI / 16 ->
       pose_x v = MIN (hypot ey ex) max_speed_x)
      /\ (~ fabs bearing_error < M_PI / 16 -> pose_x v = 0)).
Proof.
  intros Hs Hm Hd p ex ey be v.
  assert (Hv : v = mk_pose
                     (if (Rltb (fabs ex) close_enough
                          && Rltb (fabs ey) close_enough)%bool
                      then 0
                      else if Rltb (fabs be) (M_PI / 16)
                           then MIN (hypot ey ex) max_speed_x
                           else 0)
                     0 (pose_a v)).
  { unfold v. rewrite (differential_position_velocity tpa m Hs Hm Hd).
    cbn [pose_a]. rewrite position_control_differential_x. reflexivity. }
  rewrite Hv. cbn [pose_x pose_y]. clear Hv.
  pose proof (hypot_nonneg ey ex) as Hh.
  assert (Hmin : 0 <= MIN (hypot ey ex) max_speed_x <= max_speed_x).
  { unfold MIN, max_speed_x in *. case_Rlt; lra. }
  assert (H04 : 0 <= 0 <= max_speed_x) by (unfold max_speed_x; lra).
  split; [reflexivity |].
  split; [| split].
  - destruct (Rltb (fabs ex) close_enough && Rltb (fabs ey) close_enough)%bool;
      [exact H04 |].
    destruct (Rltb (fabs be) (M_PI / 16)); assumption.
  - intros Hx Hy. rewrite (Rltb_true _ _ Hx), (Rltb_true _ _ Hy). reflexivity.
  - intros Hfar.
    assert (Hb : (Rltb (fabs ex) close_enough
                  && Rltb (fabs ey) close_enough)%bool = false).
    { unfold Rltb. destruct (Rlt_dec (fabs ex) close_enough);
        destruct (Rlt_dec (fabs ey) close_enough); try reflexivity.
      exfalso. apply Hfar. split; assumption. }
    rewrite Hb. split; intros Hbe.
    + rewrite (Rltb_true _ _ Hbe). reflexivity.
    + rewrite (Rltb_false _ _ Hbe). reflexivity.
Qed.

Lemma differential_forward_speed_witness :
  0 <= pose_x
         (velocity
            (position_update advance
               (a_model 1 100 pose_zero STG_POSITION_DRIVE_DIFFERENTIAL
                        (mk_cmd 3 4 0 STG_POSITION_CONTROL_POSITION)
                        STG_POSITION_LOCALIZATION_GPS pose_zero pose_zero)))
    <= max_speed_x.
Proof.
  apply (differential_forward_speed advance
           (a_model 1 100 pose_zero STG_POSITION_DRIVE_DIFFERENTIAL
                    (mk_cmd 3 4 0 STG_POSITION_CONTROL_POSITION)
                    STG_POSITION_LOCALIZATION_GPS pose_zero pose_zero)).
  - simpl. lia.
  - reflexivity.
  - reflexivity.
Defined.

(** X2: the turn rate of a differential drive under position control lies
    between [- max_speed_a] and [PI]. *)
Theorem differential_turn_rate_bounds tpa m :
  subs m <> 0%Z ->
  cmd_mode (position_cmd m) = STG_POSITION_CONTROL_POSITION ->
  position_drive m = STG_POSITION_DRIVE_DIFFERENTIAL ->
  - max_speed_a <= pose_a (velocity (position_update tpa m)) <= PI.
Proof.
  intros Hs Hm Hd.
  destruct (differential_turn_rate tpa m Hs Hm Hd) as (Hva & Hlo & _).
  cbv zeta in Hva, Hlo. split; [exact Hlo |].
  rewrite Hva.
  match goal with
  | |- MAX ?ea _ <= _ =>
      assert (Hea : ea <= PI)
        by (destruct (Rltb _ close_enough && Rltb _ close_enough)%bool;
            apply NORMALIZE_bound);
      generalize dependent ea
  end.
  intros ea _ Hea. unfold MAX, max_speed_a.
  pose proof PI_RGT_0. case_Rlt; lra.
Qed.

Lemma differential_turn_rate_bounds_witness :
  - max_speed_a
  <= pose_a
       (velocity
          (position_update advance
             (a_model 1 100 pose_zero STG_POSITION_DRIVE_DIFFERENTIAL
                      (mk_cmd 3 4 0 STG_POSITION_CONTROL_POSITION)
                      STG_POSITION_LOCALIZATION_GPS pose_zero pose_zero)))
  <= PI.
Proof.
  apply (differential_turn_rate_bounds advance
           (a_model 1 100 pose_zero STG_POSITION_DRIVE_DIFFERENTIAL
                    (mk_cmd 3 4 0 STG_POSITION_CONTROL_POSITION)
                    STG_POSITION_LOCALIZATION_GPS pose_zero pose_zero)).
  - simpl. lia.
  - reflexivity.
  - reflexivity.
Defined.

Lemma omni_position_velocity tpa m :
  subs m <> 0%Z ->
  cmd_mode (position_cmd m) = STG_POSITION_CONTROL_POSITION ->
  position_drive m = STG_POSITION_DRIVE_OMNI ->
  let p := pose (position_data m) in
  velocity (position_update tpa m)
  = mk_pose (MIN (cmd_x (position_cmd m) - pose_x p) max_speed_x)
            (MIN (cmd_y (position_cmd m) - pose_y p) max_speed_y)
            (MIN (NORMALIZE (cmd_a (position_cmd m) - pose_a p)) max_speed_a).
Proof.
  intros Hs Hm Hd p. rewrite (velocity_of_step tpa m Hs).
  unfold position_command.
  cbn [position_cmd position_drive position_data set_velocity].
  rewrite Hm, Hd. reflexivity.
Qed.

(** X3: under position control of an omnidirectional drive, with a
    subscriber, no component of the velocity is above its speed limit, and
    the turn rate is above [- PI]. *)
Theorem omni_position_speed_limits tpa m :
  subs m <> 0%Z ->
  cmd_mode (position_cmd m) = STG_POSITION_CONTROL_POSITION ->
  position_drive m = STG_POSITION_DRIVE_OMNI ->
  let v := velocity (position_update tpa m) in
  pose_x v <= max_speed_x /\ pose_y v <= max_speed_y
  /\ - PI < pose_a v <= max_speed_a.
Proof.
  intros Hs Hm Hd v. unfold v.
  rewrite (omni_position_velocity tpa m Hs Hm Hd). cbn [pose_x pose_y pose_a].
  pose proof (NORMALIZE_bound
                (cmd_a (position_cmd m) - pose_a (pose (position_data m))))
    as [Hlo _].
  pose proof PI_RGT_0.
  unfold MIN, max_speed_x, max_speed_y, max_speed_a.
  repeat split; case_Rlt; lra.
Qed.

Lemma omni_position_speed_limits_witness :
  pose_x
    (velocity
       (position_update advance
          (a_model 1 100 pose_zero STG_POSITION_DRIVE_OMNI
                   (mk_cmd 3 4 0 STG_POSITION_CONTROL_POSITION)
                   STG_POSITION_LOCALIZATION_GPS pose_zero pose_zero)))
  <= max_speed_x.
Proof.
  apply (omni_position_speed_limits advance
           (a_model 1 100 pose_zero STG_POSITION_DRIVE_OMNI
                    (mk_cmd 3 4 0 STG_POSITION_CONTROL_POSITION)
                    STG_POSITION_LOCALIZATION_GPS pose_zero pose_zero)).
  - simpl. lia.
  - reflexivity.
  - reflexivity.
Defined.

(** X4: under position control, with a subscriber and either drive, a model
    that believes to be at the target pose is told to stand still. *)
Theorem position_control_at_target tpa m :
  subs m <> 0%Z ->
  cmd_mode (position_cmd m) = STG_POSITION_CONTROL_POSITION ->
  (position_drive m = STG_POSITION_DRIVE_DIFFERENTIAL \/
   position_drive m = STG_POSITION_DRIVE_OMNI) ->
  cmd_x (position_cmd m) = pose_x (pose (position_data m)) ->
  cmd_y (position_cmd m) = pose_y (pose (position_data m)) ->
  cmd_a (position_cmd m) = pose_a (pose (position_data m)) ->
  velocity (position_update tpa m) = pose_zero.
Proof.
  intros Hs Hm Hd Hx Hy Ha.
  assert (H0 : Rltb (fabs 0) close_enough = true).
  { apply Rltb_true. unfold fabs, close_enough. rewrite Rabs_R0. lra. }
  destruct Hd as [Hd | Hd].
  - rewrite (differential_position_velocity tpa m Hs Hm Hd).
    rewrite position_control_differential_x, position_control_differential_a.
    rewrite Hx, Hy, Ha, !Rminus_diag, H0, NORMALIZE_0. cbn [andb].
    unfold pose_zero, MAX, max_speed_a. f_equal. case_Rlt; lra.
  - rewrite (omni_position_velocity tpa m Hs Hm Hd).
    rewrite Hx, Hy, Ha, !Rminus_diag, NORMALIZE_0.
    unfold pose_zero, MIN, max_speed_x, max_speed_y, max_speed_a.
    f_equal; case_Rlt; lra.
Qed.

Lemma position_control_at_target_witness :
  velocity
    (position_update advance
       (a_model 1 100 pose_zero STG_POSITION_DRIVE_DIFFERENTIAL
                (mk_cmd 3 4 5 STG_POSITION_CONTROL_POSITION)
                STG_POSITION_LOCALIZATION_GPS pose_zero (mk_pose 3 4 5)))
  = pose_zero.
Proof.
  apply (position_control_at_target advance
           (a_model 1 100 pose_zero STG_POSITION_DRIVE_DIFFERENTIAL
                    (mk_cmd 3 4 5 STG_POSITION_CONTROL_POSITION)
                    STG_POSITION_LOCALIZATION_GPS pose_zero (mk_pose 3 4 5))).
  - simpl. lia.
  - reflexivity.
  - left. reflexivity.
  - reflexivity.
  - reflexivity.
  - reflexivity.
Defined.

Lemma atan2_ahead (d : R) : 0 < d -> atan2 0 d = 0.
Proof.
  intros Hd. unfold atan2. destruct (Rlt_dec 0 d); [| lra].
  unfold Rdiv. rewrite Rmult_0_l. apply atan_0.
Qed.

Lemma hypot_ahead (d : R) : 0 <= d -> hypot 0 d = d.
Proof.
  intros Hd. unfold hypot. rewrite Rmult_0_l, Rplus_0_l.
  now apply sqrt_square.
Qed.

(** X5: a differential model that believes to head along the x axis (heading
    [0]) and whose target lies straight ahead, [d >= close_enough] away,
    drives at the speed [MIN d max_speed_x] without turning, whatever the
    heading of the target pose. *)
Theorem differential_target_straight_ahead tpa m (d : R) :
  subs m <> 0%Z ->
  cmd_mode (position_cmd m) = STG_POSITION_CONTROL_POSITION ->
  position_drive m = STG_POSITION_DRIVE_DIFFERENTIAL ->
  pose_a (pose (position_data m)) = 0 ->
  cmd_x (position_cmd m) = pose_x (pose (position_data m)) + d ->
  cmd_y (position_cmd m) = pose_y (pose (position_data m)) ->
  close_enough <= d ->
  velocity (position_update tpa m) = mk_pose (MIN d max_speed_x) 0 0.
Proof.
  intros Hs Hm Hd Ha Hx Hy Hfar.
  assert (Hd0 : 0 < d) by (unfold close_enough in Hfar; lra).
  rewrite (differential_position_velocity tpa m Hs Hm Hd).
  rewrite position_control_differential_x, position_control_differential_a.
  rewrite Hx, Hy, Ha, Rminus_diag.
  replace (pose_x (pose (position_data m)) + d
           - pose_x (pose (position_data m))) with d by ring.
  assert (Hfx : Rltb (fabs d) close_enough = false).
  { apply Rltb_false. unfold fabs. rewrite Rabs_pos_eq; lra. }
  rewrite Hfx. cbn [andb].
  rewrite (atan2_ahead d Hd0), Rminus_diag, NORMALIZE_0.
  assert (Hf0 : Rltb (fabs 0) (M_PI / 16) = true).
  { apply Rltb_true. unfold fabs, M_PI. rewrite Rabs_R0.
    pose proof PI_RGT_0. lra. }
  rewrite Hf0, (hypot_ahead d) by lra.
  f_equal. unfold MAX, max_speed_a. case_Rlt; lra.
Qed.

Lemma differential_target_straight_ahead_witness :
  velocity
    (position_update advance
       (a_model 1 100 pose_zero STG_POSITION_DRIVE_DIFFERENTIAL
                (mk_cmd (0 + 1) 0 2 STG_POSITION_CONTROL_POSITION)
                STG_POSITION_LOCALIZATION_GPS pose_zero pose_zero))
  = mk_pose (MIN 1 max_speed_x) 0 0.
Proof.
  apply (differential_target_straight_ahead advance
           (a_model 1 100 pose_zero STG_POSITION_DRIVE_DIFFERENTIAL
                    (mk_cmd (0 + 1) 0 2 STG_POSITION_CONTROL_POSITION)
                    STG_POSITION_LOCALIZATION_GPS pose_zero pose_zero) 1).
  - simpl. lia.
  - reflexivity.
  - reflexivity.
  - reflexivity.
  - reflexivity.
  - reflexivity.
  - unfold close_enough. lra.
Defined.

(** ** What a step reports *)

(** The events of the localization. *)
Lemma trace_of_step tpa m :
  trace (position_update tpa m)
  = trace (position_update_velocity m)
    ++ match localization (position_data m) with
       | STG_POSITION_LOCALIZATION_other =>
           [EvErr "unknown localization mode"; EvRefresh "position_data"]
       | _ => [EvRefresh "position_data"]
       end.
Proof.
  destruct (position_update_velocity_frame m) as (_ & _ & _ & _ & _ & Hd).
  unfold position_update, position_update_localization.
  cbn [position_data _model_update set_gpose].
  rewrite Hd.
  destruct (localization (position_data m)); cbn;
    rewrite <- ?app_assoc; reflexivity.
Qed.

(** The events of the command interpreter. *)
Lemma trace_of_command m :
  trace (position_command m)
  = trace m
    ++ match cmd_mode (position_cmd m), position_drive m with
       | STG_POSITION_CONTROL_other, _ =>
           [EvErr "unrecognized position command mode"]
       | _, STG_POSITION_DRIVE_other => [EvErr "unknown steering mode"]
       | _, _ => []
       end.
Proof.
  destruct m as [n i g v b drive st [cx cy ca mode] d tr].
  unfold position_command. cbn.
  destruct mode, drive; cbn; rewrite ?app_nil_r; reflexivity.
Qed.

Lemma trace_of_velocity_subscribed m :
  subs m <> 0%Z ->
  trace (position_update_velocity m)
  = trace m
    ++ match cmd_mode (position_cmd m), position_drive m with
       | STG_POSITION_CONTROL_other, _ =>
           [EvErr "unrecognized position command mode"]
       | _, STG_POSITION_DRIVE_other => [EvErr "unknown steering mode"]
       | _, _ => []
       end
    ++ [EvSet "position_stall"; EvRefresh "velocity"].
Proof.
  intros Hs. rewrite (position_update_velocity_subscribed m Hs).
  cbn [trace stg_model_property_refresh stg_model_set_property emit
       set_position_stall].
  rewrite trace_of_command. cbn [trace position_cmd position_drive set_velocity].
  rewrite <- !app_assoc. reflexivity.
Qed.

(** X6: a step of a model whose modes are all known reports no error: with
    a subscriber its events are the reset of the stall flag, the refresh of
    the velocity and the refresh of the position data, in this order;
    without subscribers the refresh of the position data is its only
    event. *)
Theorem step_events_known_modes tpa m :
  cmd_mode (position_cmd m) <> STG_POSITION_CONTROL_other ->
  position_drive m <> STG_POSITION_DRIVE_other ->
  localization (position_data m) <> STG_POSITION_LOCALIZATION_other ->
  (subs m <> 0%Z ->
   events_since m (position_update tpa m)
   = [EvSet "position_stall"; EvRefresh "velocity";
      EvRefresh "position_data"])
  /\ (subs m = 0%Z ->
      events_since m (position_update tpa m) = [EvRefresh "position_data"]).
Proof.
  intros Hm Hd Hl.
  assert (Hloc : match localization (position_data m) with
                 | STG_POSITION_LOCALIZATION_other =>
                     [EvErr "unknown localization mode";
                      EvRefresh "position_data"]
                 | _ => [EvRefresh "position_data"]
                 end = [EvRefresh "position_data"]).
  { destruct (localization (position_data m)); congruence. }
  split; intros Hs; apply events_since_app; rewrite trace_of_step, Hloc.
  - rewrite (trace_of_velocity_subscribed m Hs).
    destruct (cmd_mode (position_cmd m)), (position_drive m);
      try congruence; cbn [app]; rewrite <- !app_assoc; reflexivity.
  - rewrite (position_update_velocity_unsubscribed m Hs). reflexivity.
Qed.

Lemma step_events_known_modes_witness :
  events_since
    (a_model 1 100 pose_zero STG_POSITION_DRIVE_OMNI
             (mk_cmd 2 3 5 STG_POSITION_CONTROL_VELOCITY)
             STG_POSITION_LOCALIZATION_ODOM pose_zero pose_zero)
    (position_update advance
       (a_model 1 100 pose_zero STG_POSITION_DRIVE_OMNI
                (mk_cmd 2 3 5 STG_POSITION_CONTROL_VELOCITY)
                STG_POSITION_LOCALIZATION_ODOM pose_zero pose_zero))
  = [EvSet "position_stall"; EvRefresh "velocity"; EvRefresh "position_data"].
Proof.
  apply (proj1
           (step_events_known_modes advance
              (a_model 1 100 pose_zero STG_POSITION_DRIVE_OMNI
                       (mk_cmd 2 3 5 STG_POSITION_CONTROL_VELOCITY)
                       STG_POSITION_LOCALIZATION_ODOM pose_zero pose_zero)
              ltac:(discriminate) ltac:(discriminate) ltac:(discriminate))).
  simpl. lia.
Defined.



(** X8: when the localization mode is not one the code knows, the step
    reports it as an error and leaves the position data, the believed pose
    with it, as they were; the refresh of the position data is still the
    last event of the step. *)
Theorem step_unknown_localization tpa m :
  localization (position_data m) = STG_POSITION_LOCALIZATION_other ->
  position_data (position_update tpa m) = position_data m
  /\ exists evs,
      events_since m (position_update tpa m)
      = evs ++ [EvErr "unknown localization mode"; EvRefresh "position_data"].
Proof.
  intros Hl.
  destruct (position_update_velocity_frame m) as (_ & _ & _ & _ & _ & Hd).
  split.
  - unfold position_update, position_update_localization.
    cbn [position_data _model_update set_gpose].
    rewrite Hd, Hl.
    cbn [position_data stg_model_property_refresh emit PRINT_ERR set_gpose].
    exact Hd.
  - destruct (Z.eq_dec (subs m) 0) as [Hs | Hs].
    + exists []. apply events_since_app. rewrite trace_of_step, Hl.
      rewrite (position_update_velocity_unsubscribed m Hs). reflexivity.
    + pose proof (trace_of_velocity_subscribed m Hs) as Hv.
      match type of Hv with
      | _ = _ ++ ?evs => exists evs
      end.
      apply events_since_app. rewrite trace_of_step, Hl, Hv.
      now rewrite <- app_assoc.
Qed.

Lemma step_unknown_localization_witness :
  position_data
    (position_update advance
       (a_model 1 100 pose_zero STG_POSITION_DRIVE_OMNI
                (mk_cmd 2 3 5 STG_POSITION_CONTROL_VELOCITY)
                STG_POSITION_LOCALIZATION_other pose_zero (mk_pose 1 2 3)))
  = position_data
      (a_model 1 100 pose_zero STG_POSITION_DRIVE_OMNI
               (mk_cmd 2 3 5 STG_POSITION_CONTROL_VELOCITY)
               STG_POSITION_LOCALIZATION_other pose_zero (mk_pose 1 2 3)).
Proof.
  apply (step_unknown_localization advance
           (a_model 1 100 pose_zero STG_POSITION_DRIVE_OMNI
                    (mk_cmd 2 3 5 STG_POSITION_CONTROL_VELOCITY)
                    STG_POSITION_LOCALIZATION_other pose_zero (mk_pose 1 2 3))).
  reflexivity.
Defined.

(** ** Ground truth, further *)

(** The true pose after a step is the one that the integrator supplied. *)
Lemma gpose_of_step tpa m :
  gpose (position_update tpa m) = tpa (position_update_velocity m).
Proof.
  unfold position_update, position_update_localization.
  destruct (localization (position_data (_model_update tpa _))); reflexivity.
Qed.

(** X9: with the localization "gps" and the origin [(0, 0, 0)], a step sets
    the believed position to the true position and the believed heading to
    the normalized true heading. *)
Theorem gps_zero_origin_true_pose tpa m :
  localization (position_data m) = STG_POSITION_LOCALIZATION_GPS ->
  origin (position_data m) = pose_zero ->
  let m' := position_update tpa m in
  pose (position_data m')
  = mk_pose (pose_x (gpose m')) (pose_y (gpose m'))
            (NORMALIZE (pose_a (gpose m'))).
Proof.
  intros Hl Ho m'.
  unfold m'. rewrite (gps_pose_in_frame tpa m Hl), gpose_of_step, Ho.
  unfold pose_in_frame. cbn [pose_x pose_y pose_a pose_zero].
  rewrite Ropp_0, cos_0, sin_0. f_equal.
  - ring.
  - ring.
  - f_equal. ring.
Qed.

Lemma gps_zero_origin_true_pose_witness :
  let m' :=
    position_update stay
      (a_model 0 100 (mk_pose 3 4 1) STG_POSITION_DRIVE_OMNI cmd_zero
               STG_POSITION_LOCALIZATION_GPS pose_zero pose_zero) in
  pose (position_data m')
  = mk_pose (pose_x (gpose m')) (pose_y (gpose m'))
            (NORMALIZE (pose_a (gpose m'))).
Proof.
  apply (gps_zero_origin_true_pose stay
           (a_model 0 100 (mk_pose 3 4 1) STG_POSITION_DRIVE_OMNI cmd_zero
                    STG_POSITION_LOCALIZATION_GPS pose_zero pose_zero)
           eq_refl eq_refl).
Defined.

(** X10: with the localization "gps", the believed pose of a step leads back
    to the true position: the believed position, turned by the heading of
    the origin and moved by the position of the origin, is the true
    position. *)
Theorem gps_believed_pose_round_trip tpa m :
  localization (position_data m) = STG_POSITION_LOCALIZATION_GPS ->
  let m' := position_update tpa m in
  let b := pose (position_data m') in
  let o := origin (position_data m) in
  pose_x (gpose m')
  = pose_x o + (pose_x b * cos (pose_a o) - pose_y b * sin (pose_a o))
  /\ pose_y (gpose m')
     = pose_y o + (pose_x b * sin (pose_a o) + pose_y b * cos (pose_a o)).
Proof.
  intros Hl m' b o. unfold b, m'.
  rewrite (gps_pose_in_frame tpa m Hl), gpose_of_step.
  fold o. unfold pose_in_frame. cbn [pose_x pose_y pose_a].
  rewrite cos_neg, sin_neg.
  pose proof (sin2_cos2 (pose_a o)) as H. unfold Rsqr in H.
  set (c := cos (pose_a o)) in *. set (s := sin (pose_a o)) in *.
  set (dx := pose_x (tpa (position_update_velocity m)) - pose_x o).
  set (dy := pose_y (tpa (position_update_velocity m)) - pose_y o).
  split.
  - replace (pose_x (tpa (position_update_velocity m))) with (pose_x o + dx)
      by (unfold dx; ring).
    replace ((dx * c - dy * - s) * c - (dx * - s + dy * c) * s)
      with (dx * (s * s + c * c)) by ring.
    rewrite H. ring.
  - replace (pose_y (tpa (position_update_velocity m))) with (pose_y o + dy)
      by (unfold dy; ring).
    replace ((dx * c - dy * - s) * s + (dx * - s + dy * c) * c)
      with (dy * (s * s + c * c)) by ring.
    rewrite H. ring.
Qed.

Lemma gps_believed_pose_round_trip_witness :
  let m :=
    a_model 0 100 (mk_pose 3 4 1) STG_POSITION_DRIVE_OMNI cmd_zero
            STG_POSITION_LOCALIZATION_GPS (mk_pose 1 1 2) pose_zero in
  let b := pose (position_data (position_update stay m)) in
  pose_x (gpose (position_update stay m))
  = 1 + (pose_x b * cos 2 - pose_y b * sin 2).
Proof.
  apply (gps_believed_pose_round_trip stay
           (a_model 0 100 (mk_pose 3 4 1) STG_POSITION_DRIVE_OMNI cmd_zero
                    STG_POSITION_LOCALIZATION_GPS (mk_pose 1 1 2) pose_zero)
           eq_refl).
Defined.

(** ** Loading a worldfile, further *)

(** The steering mode after [position_load]. *)
Lemma position_load_drive wf m :
  position_drive (position_load wf m)
  = match wf_drive wf with
    | Some (Some s) =>
        if String.eqb s "diff" then STG_POSITION_DRIVE_DIFFERENTIAL
        else if String.eqb s "omni" then STG_POSITION_DRIVE_OMNI
             else position_drive m
    | _ => position_drive m
    end.
Proof.
  unfold position_load. cbv zeta.
  cbn [position_drive stg_model_property_refresh emit].
  rewrite (proj2 (load_after_drive_grows wf (load_drive wf m))).
  unfold load_drive.
  destruct (wf_drive wf) as [[s |] |]; try reflexivity.
  destruct (String.eqb s "diff"); [reflexivity |].
  destruct (String.eqb s "omni"); reflexivity.
Qed.

(** The localization after [position_load]. *)
Lemma position_load_localization wf m :
  localization (position_data (position_load wf m))
  = match wf_localization wf with
    | Some (Some s) =>
        if String.eqb s "gps" then STG_POSITION_LOCALIZATION_GPS
        else if String.eqb s "odom" then STG_POSITION_LOCALIZATION_ODOM
             else localization (position_data m)
    | _ => localization (position_data m)
    end.
Proof.
  unfold position_load. cbv zeta.
  cbn [position_data stg_model_property_refresh emit].
  rewrite <- (proj2 (load_before_localization wf m)).
  cbv zeta.
  generalize (load_odom_error wf (load_origin wf (load_odom wf (load_drive wf m)))).
  intros m4. unfold load_localization.
  destruct (wf_localization wf) as [[s |] |]; try reflexivity.
  destruct (String.eqb s "gps"); [reflexivity |].
  destruct (String.eqb s "odom"); reflexivity.
Qed.

Lemma position_data_ext (d1 d2 : stg_position_data_t) :
  pose d1 = pose d2 -> pose_error d1 = pose_error d2 ->
  origin d1 = origin d2 -> localization d1 = localization d2 ->
  integration_error d1 = integration_error d2 -> d1 = d2.
Proof. destruct d1, d2; cbn; congruence. Qed.

(** X11: the strings "diff" and "omni" of the entry "drive" select the
    differential and the omnidirectional drive, the strings "gps" and "odom"
    of the entry "localization" select ground truth and odometry, whatever
    the model had before and whatever else the worldfile holds; without the
    entry the model keeps what it had. *)
Theorem position_load_modes wf m :
  (wf_drive wf = Some (Some "diff"%string) ->
   position_drive (position_load wf m) = STG_POSITION_DRIVE_DIFFERENTIAL)
  /\ (wf_drive wf = Some (Some "omni"%string) ->
      position_drive (position_load wf m) = STG_POSITION_DRIVE_OMNI)
  /\ (wf_drive wf = None ->
      position_drive (position_load wf m) = position_drive m)
  /\ (wf_localization wf = Some (Some "gps"%string) ->
      localization (position_data (position_load wf m))
      = STG_POSITION_LOCALIZATION_GPS)
  /\ (wf_localization wf = Some (Some "odom"%string) ->
      localization (position_data (position_load wf m))
      = STG_POSITION_LOCALIZATION_ODOM)
  /\ (wf_localization wf = None ->
      localization (position_data (position_load wf m))
      = localization (position_data m)).
Proof.
  rewrite position_load_drive, position_load_localization.
  repeat split; intros H; rewrite H; reflexivity.
Qed.

Lemma position_load_modes_witness :
  position_drive
    (position_load
       (mk_worldfile (Some (Some "omni"%string)) true (Some (1, 2, 3)) None
                     (Some (Some "odom"%string)))
       (new_model pose_zero))
  = STG_POSITION_DRIVE_OMNI
  /\ localization
       (position_data
          (position_load
             (mk_worldfile (Some (Some "omni"%string)) true (Some (1, 2, 3))
                           None (Some (Some "odom"%string)))
             (new_model pose_zero)))
     = STG_POSITION_LOCALIZATION_ODOM.
Proof.
  split.
  - apply (position_load_modes
             (mk_worldfile (Some (Some "omni"%string)) true (Some (1, 2, 3))
                           None (Some (Some "odom"%string)))
             (new_model pose_zero)).
    reflexivity.
  - apply (position_load_modes
             (mk_worldfile (Some (Some "omni"%string)) true (Some (1, 2, 3))
                           None (Some (Some "odom"%string)))
             (new_model pose_zero)).
    reflexivity.
Defined.

(** X12: without the entry "localization_origin", [position_load] takes the
    true pose of the model for the origin and leaves the believed pose and
    the pose error as they were; a model with the localization "gps" that
    is then stepped without being moved believes to be at [(0, 0, 0)]. *)
Theorem position_load_default_origin tpa wf m :
  wf_localization_origin wf = None ->
  let m' := position_load wf m in
  origin (position_data m') = gpose m
  /\ pose (position_data m') = pose (position_data m)
  /\ pose_error (position_data m') = pose_error (position_data m)
  /\ (localization (position_data m') = STG_POSITION_LOCALIZATION_GPS ->
      tpa (position_update_velocity m') = gpose m ->
      pose (position_data (position_update tpa m')) = pose_zero).
Proof.
  intros Hw m'.
  destruct (position_load_data wf m) as (_ & H). rewrite Hw in H.
  destruct H as (Hp & He & Ho). fold m' in Hp, He, Ho.
  repeat split; try assumption.
  intros Hl Hstill.
  rewrite (gps_pose_in_frame tpa m' Hl), Ho, Hstill.
  unfold pose_in_frame, pose_zero. rewrite !Rminus_diag, NORMALIZE_0.
  f_equal; ring.
Qed.

Lemma position_load_default_origin_witness :
  origin (position_data (position_load wf_empty (new_model (mk_pose 3 4 1))))
  = gpose (new_model (mk_pose 3 4 1)).
Proof.
  apply (position_load_default_origin stay wf_empty
           (new_model (mk_pose 3 4 1)) eq_refl).
Defined.

(** X13: loading the same worldfile a second time changes neither the
    position data nor the steering mode. *)
Theorem position_load_twice wf m :
  position_data (position_load wf (position_load wf m))
  = position_data (position_load wf m)
  /\ position_drive (position_load wf (position_load wf m))
     = position_drive (position_load wf m).
Proof.
  set (m1 := position_load wf m).
  destruct (position_load_frame wf m) as (_ & _ & Hg & _). fold m1 in Hg.
  destruct (position_load_data wf m) as (Hi & Hd). fold m1 in Hi, Hd.
  destruct (position_load_data wf m1) as (Hi' & Hd').
  pose proof (position_load_localization wf m) as Hl. fold m1 in Hl.
  pose proof (position_load_localization wf m1) as Hl'.
  pose proof (position_load_drive wf m) as Hdr. fold m1 in Hdr.
  pose proof (position_load_drive wf m1) as Hdr'.
  split.
  - apply position_data_ext.
    + destruct (wf_localization_origin wf) as [[[ox oy] oa] |].
      * destruct Hd as (Hp & _), Hd' as (Hp' & _).
        rewrite Hp', Hp, Hg. reflexivity.
      * destruct Hd' as (Hp' & _). exact Hp'.
    + destruct (wf_localization_origin wf) as [[[ox oy] oa] |].
      * destruct Hd as (_ & He & _), Hd' as (_ & He' & _). congruence.
      * destruct Hd' as (_ & He' & _). exact He'.
    + destruct (wf_localization_origin wf) as [[[ox oy] oa] |].
      * destruct Hd as (_ & _ & Ho), Hd' as (_ & _ & Ho'). congruence.
      * destruct Hd as (_ & _ & Ho), Hd' as (_ & _ & Ho'). congruence.
    + rewrite Hl'. destruct (wf_localization wf) as [[s |] |]; try reflexivity.
      rewrite Hl.
      destruct (String.eqb s "gps"); [reflexivity |].
      destruct (String.eqb s "odom"); reflexivity.
    + rewrite Hi'. destruct (wf_odom_error wf) as [[[ex ey] ea] |];
        [symmetry; exact Hi | reflexivity].
  - rewrite Hdr'. destruct (wf_drive wf) as [[s |] |]; try reflexivity.
    rewrite Hdr.
    destruct (String.eqb s "diff"); [reflexivity |].
    destruct (String.eqb s "omni"); reflexivity.
Qed.

(** X14: the entry "odom" has no effect but a warning: with it the position
    data and the steering mode are loaded as without it. *)
Theorem position_load_odom_only_warns wf m :
  wf_odom wf = true ->
  position_data (position_load wf m)
  = position_data (position_load (wf_without_odom wf) m)
  /\ position_drive (position_load wf m)
     = position_drive (position_load (wf_without_odom wf) m)
  /\ In (EvWarn "the odom property is no longer available")
        (events_since m (position_load wf m)).
Proof.
  intros Hw.
  set (msg := "the odom property is no longer available"%string).
  set (m1 := load_drive wf m).
  assert (Hodom : load_odom wf m1 = PRINT_WARN msg m1).
  { unfold load_odom. rewrite Hw. reflexivity. }
  split; [| split].
  - change (position_data (position_load wf m))
      with (position_data
              (load_localization wf
                 (load_odom_error wf (load_origin wf (load_odom wf m1))))).
    rewrite Hodom.
    change (position_data (position_load (wf_without_odom wf) m))
      with (position_data
              (load_localization (wf_without_odom wf)
                 (load_odom_error (wf_without_odom wf)
                    (load_origin (wf_without_odom wf)
                       (load_odom (wf_without_odom wf) m1))))).
    change (PRINT_WARN msg m1)
      with (load_odom (wf_without_odom wf) (PRINT_WARN msg m1)).
    change (load_localization wf
              (load_odom_error wf
                 (load_origin wf
                    (load_odom (wf_without_odom wf) (PRINT_WARN msg m1)))))
      with (load_localization (wf_without_odom wf)
              (load_odom_error (wf_without_odom wf)
                 (load_origin (wf_without_odom wf)
                    (load_odom (wf_without_odom wf) (PRINT_WARN msg m1))))).
    apply load_after_drive_same_place. split; reflexivity.
  - rewrite !position_load_drive. reflexivity.
  - destruct (load_drive_grows wf m) as (e1 & H1). fold m1 in H1.
    assert (G : trace_grows (PRINT_WARN msg m1)
                  (load_localization wf
                     (load_odom_error wf
                        (load_origin wf (PRINT_WARN msg m1))))).
    { eapply trace_grows_trans; [| apply load_localization_grows].
      eapply trace_grows_trans; [| apply load_odom_error_grows].
      apply load_origin_grows. }
    destruct G as (e2 & H2).
    assert (Htr : trace (position_load wf m)
                  = trace m ++ (e1 ++ [EvWarn msg] ++ e2
                                ++ [EvRefresh "position_data"])).
    { unfold position_load. cbv zeta. fold m1. rewrite Hodom.
      cbn [trace stg_model_property_refresh emit]. rewrite H2.
      cbn [trace PRINT_WARN emit]. rewrite H1.
      rewrite <- !app_assoc. reflexivity. }
    rewrite (events_since_app _ _ _ Htr).
    apply in_or_app. right. apply in_or_app. left. now left.
Qed.

Lemma position_load_odom_only_warns_witness :
  position_drive
    (position_load (mk_worldfile None true None None None)
                   (new_model pose_zero))
  = position_drive
      (position_load
         (wf_without_odom (mk_worldfile None true None None None))
         (new_model pose_zero)).
Proof.
  apply (position_load_odom_only_warns
           (mk_worldfile None true None None None) (new_model pose_zero)
           eq_refl).
Defined.

(** X15: [position_load] moves nothing and gives no order: the
    subscriptions, the step of the world, the true pose, the velocity, the
    stall flag and the command are after it what they were before. *)
Theorem position_load_leaves_motion wf m :
  let m' := position_load wf m in
  subs m' = subs m /\ sim_interval m' = sim_interval m
  /\ gpose m' = gpose m /\ velocity m' = velocity m
  /\ position_stall m' = position_stall m
  /\ position_cmd m' = position_cmd m.
Proof. exact (position_load_frame wf m). Qed.

(** ** Stopping *)

(** X16: [position_shutdown] leaves the command and the velocity at zero,
    and the step that follows commands the velocity zero whatever the
    steering mode and the subscriptions; the position data are not
    touched. *)
Theorem position_shutdown_stops tpa m :
  let m' := position_shutdown m in
  position_cmd m' = cmd_zero
  /\ velocity m' = pose_zero
  /\ position_data m' = position_data m
  /\ velocity (position_update tpa m') = pose_zero.
Proof.
  cbv zeta. repeat split.
  destruct (Z.eq_dec (subs (position_shutdown m)) 0) as [Hs | Hs].
  - rewrite velocity_position_update.
    rewrite (position_update_velocity_unsubscribed _ Hs). reflexivity.
  - rewrite (velocity_of_step tpa _ Hs). unfold position_command.
    cbn [position_shutdown position_cmd position_drive set_velocity
         stg_model_set_property emit set_position_cmd cmd_zero cmd_mode
         cmd_x cmd_y cmd_a].
    destruct (position_drive m); reflexivity.
Qed.

(** ** Odometry, further *)

(** X17: by odometry, a step whose velocity is zero leaves the believed
    position where it was and normalizes the believed heading once more;
    this is so in every step of a model without subscribers. *)
Theorem odometry_at_rest tpa m :
  localization (position_data m) = STG_POSITION_LOCALIZATION_ODOM ->
  let p := pose (position_data m) in
  (velocity (position_update tpa m) = pose_zero ->
   pose (position_data (position_update tpa m))
   = mk_pose (pose_x p) (pose_y p) (NORMALIZE (pose_a p)))
  /\ (subs m = 0%Z ->
      pose (position_data (position_update tpa m))
      = mk_pose (pose_x p) (pose_y p) (NORMALIZE (pose_a p))).
Proof.
  intros Hl p.
  assert (Hrest : velocity (position_update tpa m) = pose_zero ->
                  pose (position_data (position_update tpa m))
                  = mk_pose (pose_x p) (pose_y p) (NORMALIZE (pose_a p))).
  { intros Hv. rewrite (odometry_step tpa m Hl), Hv. fold p.
    cbn [pose_x pose_y pose_a pose_zero].
    set (dt := IZR (sim_interval m) / 1000).
    replace (pose_a p
             + 0 * dt * (1 + pose_a (integration_error (position_data m))))
      with (pose_a p) by ring.
    f_equal; ring. }
  split; [exact Hrest |].
  intros Hs. apply Hrest. rewrite velocity_position_update.
  rewrite (position_update_velocity_unsubscribed m Hs). reflexivity.
Qed.

Lemma odometry_at_rest_witness :
  pose
    (position_data
       (position_update advance
          (a_model 0 100 pose_zero STG_POSITION_DRIVE_OMNI
                   (mk_cmd 2 3 5 STG_POSITION_CONTROL_VELOCITY)
                   STG_POSITION_LOCALIZATION_ODOM pose_zero (mk_pose 3 4 1))))
  = mk_pose 3 4 (NORMALIZE 1).
Proof.
  apply (proj2
           (odometry_at_rest advance
              (a_model 0 100 pose_zero STG_POSITION_DRIVE_OMNI
                       (mk_cmd 2 3 5 STG_POSITION_CONTROL_VELOCITY)
                       STG_POSITION_LOCALIZATION_ODOM pose_zero
                       (mk_pose 3 4 1))
              eq_refl)).
  reflexivity.
Defined.

(** X18: by odometry, when the velocity of the step has no lateral part (as
    with a differential drive), the believed position moves by the distance
    [vx * dt * (1 + err_x)], whatever the heading; without forward speed it
    does not move. *)
Theorem odometry_step_length tpa m :
  localization (position_data m) = STG_POSITION_LOCALIZATION_ODOM ->
  pose_y (velocity (position_update tpa m)) = 0 ->
  let p := pose (position_data m) in
  let p' := pose (position_data (position_update tpa m)) in
  let vx := pose_x (velocity (position_update tpa m)) in
  let d := vx * (IZR (sim_interval m) / 1000)
           * (1 + pose_x (integration_error (position_data m))) in
  (pose_x p' - pose_x p) * (pose_x p' - pose_x p)
  + (pose_y p' - pose_y p) * (pose_y p' - pose_y p) = d * d
  /\ (vx = 0 -> pose_x p' = pose_x p /\ pose_y p' = pose_y p).
Proof.
  intros Hl Hy p p' vx d. unfold p'.
  rewrite (odometry_step tpa m Hl), Hy. fold p vx.
  cbn [pose_x pose_y pose_a].
  set (a' := NORMALIZE _).
  pose proof (sin2_cos2 a') as H. unfold Rsqr in H.
  fold d. split.
  - replace ((pose_x p + (d * cos a'
                          + 0 * (IZR (sim_interval m) / 1000)
                            * (1 + pose_y (integration_error (position_data m)))
                            * sin a')
              - pose_x p)
             * (pose_x p + (d * cos a'
                            + 0 * (IZR (sim_interval m) / 1000)
                              * (1 + pose_y (integration_error (position_data m)))
                              * sin a')
                - pose_x p)
             + (pose_y p - (0 * (IZR (sim_interval m) / 1000)
                            * (1 + pose_y (integration_error (position_data m)))
                            * cos a' - d * sin a')
                - pose_y p)
               * (pose_y p - (0 * (IZR (sim_interval m) / 1000)
                              * (1 + pose_y (integration_error (position_data m)))
                              * cos a' - d * sin a')
                  - pose_y p))
      with (d * d * (sin a' * sin a' + cos a' * cos a')) by ring.
    rewrite H. ring.
  - intros Hvx. unfold d. rewrite Hvx. split; ring.
Qed.

Lemma odometry_step_length_witness :
  let m :=
    a_model 1 100 pose_zero STG_POSITION_DRIVE_DIFFERENTIAL
            (mk_cmd 2 3 5 STG_POSITION_CONTROL_VELOCITY)
            STG_POSITION_LOCALIZATION_ODOM pose_zero (mk_pose 3 4 1) in
  let p := pose (position_data m) in
  let p' := pose (position_data (position_update advance m)) in
  let vx := pose_x (velocity (position_update advance m)) in
  let d := vx * (IZR (sim_interval m) / 1000)
           * (1 + pose_x (integration_error (position_data m))) in
  (pose_x p' - pose_x p) * (pose_x p' - pose_x p)
  + (pose_y p' - pose_y p) * (pose_y p' - pose_y p) = d * d.
Proof.
  apply (odometry_step_length advance
           (a_model 1 100 pose_zero STG_POSITION_DRIVE_DIFFERENTIAL
                    (mk_cmd 2 3 5 STG_POSITION_CONTROL_VELOCITY)
                    STG_POSITION_LOCALIZATION_ODOM pose_zero (mk_pose 3 4 1))
           eq_refl).
  rewrite velocity_control_differential;
    [reflexivity | simpl; lia | reflexivity | reflexivity].
Defined.

(** X19: the velocity of a step never depends on the true pose that the
    integrator supplies, and by odometry neither do the position data: two
    integrators lead to the same velocity and, with the localization
    "odom", to the same position data. *)
Theorem odometry_ignores_true_pose tpa1 tpa2 m :
  velocity (position_update tpa1 m) = velocity (position_update tpa2 m)
  /\ (localization (position_data m) = STG_POSITION_LOCALIZATION_ODOM ->
      position_data (position_update tpa1 m)
      = position_data (position_update tpa2 m)).
Proof.
  split.
  - rewrite !velocity_position_update. reflexivity.
  - intros Hl.
    destruct (position_update_data_frame tpa1 m) as (E1 & O1 & L1 & I1).
    destruct (position_update_data_frame tpa2 m) as (E2 & O2 & L2 & I2).
    apply position_data_ext; try congruence.
    rewrite (odometry_step tpa1 m Hl), (odometry_step tpa2 m Hl).
    rewrite !velocity_position_update. reflexivity.
Qed.

Lemma odometry_ignores_true_pose_witness :
  position_data
    (position_update stay
       (a_model 1 100 pose_zero STG_POSITION_DRIVE_OMNI
                (mk_cmd 2 3 5 STG_POSITION_CONTROL_VELOCITY)
                STG_POSITION_LOCALIZATION_ODOM pose_zero pose_zero))
  = position_data
      (position_update advance
         (a_model 1 100 pose_zero STG_POSITION_DRIVE_OMNI
                  (mk_cmd 2 3 5 STG_POSITION_CONTROL_VELOCITY)
                  STG_POSITION_LOCALIZATION_ODOM pose_zero pose_zero)).
Proof.
  apply (odometry_ignores_true_pose stay advance
           (a_model 1 100 pose_zero STG_POSITION_DRIVE_OMNI
                    (mk_cmd 2 3 5 STG_POSITION_CONTROL_VELOCITY)
                    STG_POSITION_LOCALIZATION_ODOM pose_zero pose_zero)).
  reflexivity.
Defined.

(** ** What a step leaves alone *)

(** X20: a step changes neither the subscriptions, nor the step of the
    world, nor the steering mode, nor the command, nor, of the position
    data, the pose error, the origin, the localization mode and the
    integration error: it writes the velocity, the stall flag, the true
    pose, the believed pose and the trace only. *)
Theorem position_update_leaves_settings tpa m :
  let m' := position_update tpa m in
  subs m' = subs m /\ sim_interval m' = sim_interval m
  /\ blob_return m' = blob_return m
  /\ position_drive m' = position_drive m
  /\ position_cmd m' = position_cmd m
  /\ pose_error (position_data m') = pose_error (position_data m)
  /\ origin (position_data m') = origin (position_data m)
  /\ localization (position_data m') = localization (position_data m)
  /\ integration_error (position_data m')
     = integration_error (position_data m).
Proof.
  destruct (position_update_frame tpa m) as (H1 & H2 & H3 & H4).
  destruct (position_update_data_frame tpa m) as (H5 & H6 & H7 & H8).
  assert (Hb : blob_return (position_update tpa m) = blob_return m).
  { destruct (position_command_frame (set_velocity pose_zero m))
      as (_ & _ & _ & Hb & _).
    cbn [blob_return set_velocity] in Hb.
    assert (Hloc : forall x, blob_return (position_update_localization x)
                             = blob_return x).
    { intros x. unfold position_update_localization.
      destruct (localization (position_data x)); reflexivity. }
    unfold position_update. rewrite Hloc.
    cbn [blob_return _model_update set_gpose].
    destruct (Z.eq_dec (subs m) 0) as [E | E].
    - rewrite (position_update_velocity_unsubscribed m E). reflexivity.
    - rewrite (position_update_velocity_subscribed m E). exact Hb. }
  cbv zeta. auto 10.
Qed.

(** ** The turn towards a target behind *)

Lemma atan2_behind (d : R) : 0 < d -> atan2 0 (- d) = PI.
Proof.
  intros Hd. unfold atan2.
  destruct (Rlt_dec 0 (- d)); [lra |].
  destruct (Rlt_dec (- d) 0); [| lra].
  destruct (Rle_dec 0 0); [| lra].
  unfold Rdiv. rewrite Rmult_0_l, atan_0. ring.
Qed.

(** X21: a differential model that believes to head along the x axis (heading
    [0]) and whose target lies straight behind, [d >= close_enough] away,
    does not drive: it turns on the spot, at the rate [PI]. *)
Theorem differential_target_behind tpa m (d : R) :
  subs m <> 0%Z ->
  cmd_mode (position_cmd m) = STG_POSITION_CONTROL_POSITION ->
  position_drive m = STG_POSITION_DRIVE_DIFFERENTIAL ->
  pose_a (pose (position_data m)) = 0 ->
  cmd_x (position_cmd m) = pose_x (pose (position_data m)) - d ->
  cmd_y (position_cmd m) = pose_y (pose (position_data m)) ->
  close_enough <= d ->
  velocity (position_update tpa m) = mk_pose 0 0 PI.
Proof.
  intros Hs Hm Hd Ha Hx Hy Hfar.
  assert (Hd0 : 0 < d) by (unfold close_enough in Hfar; lra).
  pose proof PI_RGT_0 as Hpi.
  rewrite (differential_position_velocity tpa m Hs Hm Hd).
  rewrite position_control_differential_x, position_control_differential_a.
  rewrite Hx, Hy, Ha, Rminus_diag.
  replace (pose_x (pose (position_data m)) - d
           - pose_x (pose (position_data m))) with (- d) by ring.
  assert (Hfx : Rltb (fabs (- d)) close_enough = false).
  { apply Rltb_false. unfold fabs. rewrite Rabs_Ropp, Rabs_pos_eq; lra. }
  rewrite Hfx. cbn [andb].
  rewrite (atan2_behind d Hd0), Rminus_0_r, NORMALIZE_id by lra.
  assert (Hf : Rltb (fabs PI) (M_PI / 16) = false).
  { apply Rltb_false. unfold fabs, M_PI. rewrite Rabs_pos_eq; lra. }
  rewrite Hf. f_equal. unfold MAX, max_speed_a. case_Rlt; lra.
Qed.

Lemma differential_target_behind_witness :
  velocity
    (position_update advance
       (a_model 1 100 pose_zero STG_POSITION_DRIVE_DIFFERENTIAL
                (mk_cmd (0 - 1) 0 2 STG_POSITION_CONTROL_POSITION)
                STG_POSITION_LOCALIZATION_GPS pose_zero pose_zero))
  = mk_pose 0 0 PI.
Proof.
  apply (differential_target_behind advance
           (a_model 1 100 pose_zero STG_POSITION_DRIVE_DIFFERENTIAL
                    (mk_cmd (0 - 1) 0 2 STG_POSITION_CONTROL_POSITION)
                    STG_POSITION_LOCALIZATION_GPS pose_zero pose_zero) 1).
  - simpl. lia.
  - reflexivity.
  - reflexivity.
  - reflexivity.
  - reflexivity.
  - reflexivity.
  - unfold close_enough. lra.
Defined.

(** ** The life of a created model *)

Lemma pose_error_after_operation tpa m o :
  pose_error (position_data m) = pose_zero ->
  pose_error (position_data (apply_operation tpa m o)) = pose_zero.
Proof.
  intros H. destruct o; cbn [apply_operation]; try exact H.
  - destruct (position_update_data_frame tpa m) as (He & _).
    rewrite He. exact H.
  - destruct (position_load_data wf m) as (_ & Hd).
    destruct (wf_localization_origin wf) as [[[ox oy] oa] |].
    + apply Hd.
    + destruct Hd as (_ & He & _). rewrite He. exact H.
Qed.

Lemma stall_after_update tpa m :
  position_stall m = 0%Z -> position_stall (position_update tpa m) = 0%Z.
Proof.
  intros H. unfold position_update.
  rewrite (proj1 (position_update_localization_trace _)).
  cbn [position_stall _model_update set_gpose].
  destruct (Z.eq_dec (subs m) 0) as [E | E].
  - rewrite (position_update_velocity_unsubscribed m E). exact H.
  - rewrite (position_update_velocity_subscribed m E). reflexivity.
Qed.

Lemma stall_after_operation tpa m o :
  position_stall m = 0%Z ->
  position_stall (apply_operation tpa m o) = 0%Z.
Proof.
  intros H. destruct o; cbn [apply_operation]; try exact H.
  - now apply stall_after_update.
  - destruct (position_load_frame wf m) as (_ & _ & _ & _ & Hst & _).
    rewrite Hst. exact H.
Qed.

(** X22: whatever is done to a model after it is created, the position model
    never reports a pose error other than zero and never raises the stall
    flag itself (the integrator is taken to move the model only). *)
Theorem created_model_keeps_zero tpa (ops : list operation)
        (u1 u2 u3 : R) (m0 : stg_model_t) :
  let m := run tpa ops (position_init u1 u2 u3 m0) in
  pose_error (position_data m) = pose_zero /\ position_stall m = 0%Z.
Proof.
  cbv zeta.
  assert (H : pose_error (position_data (position_init u1 u2 u3 m0))
              = pose_zero
              /\ position_stall (position_init u1 u2 u3 m0) = 0%Z)
    by (split; reflexivity).
  revert H. generalize (position_init u1 u2 u3 m0).
  induction ops as [| o ops IH]; intros m (He & Hs); cbn [run fold_left].
  - split; assumption.
  - apply IH. split.
    + now apply pose_error_after_operation.
    + now apply stall_after_operation.
Qed.

(** X23: a created model that is stepped before any worldfile is loaded
    reports its true position: [position_init] leaves the localization at
    ground truth with the origin [(0, 0, 0)], so that the step sets the
    believed position to the true one and the believed heading to the
    normalized true heading. *)
Theorem created_model_true_position tpa (u1 u2 u3 : R) (m0 : stg_model_t) :
  let m' := position_update tpa (position_init u1 u2 u3 m0) in
  pose (position_data m')
  = mk_pose (pose_x (gpose m')) (pose_y (gpose m'))
            (NORMALIZE (pose_a (gpose m'))).
Proof.
  cbv zeta.
  rewrite gps_pose_in_frame by reflexivity.
  rewrite gpose_of_step.
  change (origin (position_data (position_init u1 u2 u3 m0))) with pose_zero.
  unfold pose_in_frame. cbn [pose_x pose_y pose_a pose_zero].
  rewrite Ropp_0, cos_0, sin_0. f_equal.
  - ring.
  - ring.
  - f_equal. ring.
Qed.
